(** * PureBasic indentation formatter: a shallow embedding

    Source: packages/pb-lang-support/src/server/providers/formatting-provider.ts

    JavaScript strings are sequences of UTF-16 code units; they are modelled
    as lists of code units ([N]).  Indentation counters are JavaScript
    numbers that only ever hold small integers; they are modelled as [Z], so
    that non-negativity is a property to be proved and not a typing fact. *)

From Stdlib Require Import String Ascii.
From Stdlib Require Import List Bool ZArith NArith Lia.
Import ListNotations.

Local Open Scope Z_scope.

(** ** Strings *)

Definition char := N.
Definition jsstring := list char.

(** ASCII literal of the source as a string of code units. *)
Definition js (s : string) : jsstring :=
  map N_of_ascii (list_ascii_of_string s).

Definition ch_newline : char := 10%N.
Definition ch_tab : char := 9%N.
Definition ch_space : char := 32%N.
Definition ch_semicolon : char := 59%N.
Definition ch_dquote : char := 34%N.
Definition ch_squote : char := 39%N.

Definition isEmpty (s : jsstring) : bool :=
  match s with [] => true | _ :: _ => false end.

(** [String.prototype.trim] strips WhiteSpace and LineTerminator code units
    (ECMA-262, TrimString): TAB, LF, VT, FF, CR, SP, NBSP, U+1680,
    U+2000..U+200A, U+2028, U+2029, U+202F, U+205F, U+3000 and U+FEFF. *)
Definition isWhiteSpace (c : char) : bool :=
  ((9 <=? c) && (c <=? 13) || (c =? 32) || (c =? 160) || (c =? 5760)
   || (8192 <=? c) && (c <=? 8202) || (c =? 8232) || (c =? 8233)
   || (c =? 8239) || (c =? 8287) || (c =? 12288) || (c =? 65279))%N.

Fixpoint trimStart (s : jsstring) : jsstring :=
  match s with
  | [] => []
  | c :: rest => if isWhiteSpace c then trimStart rest else s
  end.

Definition trimEnd (s : jsstring) : jsstring :=
  fold_right
    (fun c acc => if isWhiteSpace c && isEmpty acc then [] else c :: acc)
    [] s.

Definition trim (s : jsstring) : jsstring := trimEnd (trimStart s).

(** [s.startsWith(';')] *)
Definition startsWithSemicolon (s : jsstring) : bool :=
  match s with
  | c :: _ => (c =? ch_semicolon)%N
  | [] => false
  end.

(** [text.split('\n')]: never empty; the pieces hold no line feed. *)
Fixpoint split (text : jsstring) : list jsstring :=
  match text with
  | [] => [[]]
  | c :: rest =>
      if (c =? ch_newline)%N then [] :: split rest
      else match split rest with
           | l :: ls => (c :: l) :: ls
           | [] => [[c]]
           end
  end.

(** [out.join('\n')] *)
Fixpoint join (ls : list jsstring) : jsstring :=
  match ls with
  | [] => []
  | [l] => l
  | l :: rest => l ++ ch_newline :: join rest
  end.

(** [lines.slice(a, b)] for [0 <= a], [0 <= b]. *)
Definition slice {A} (a b : nat) (l : list A) : list A :=
  firstn (b - a) (skipn a l).

(** ** Regular expressions of the source

    Every pattern of the provider is built from keyword literals, the anchor
    [^], the word boundary [\b] and the flag [i].  Without the [u] flag a
    pattern letter matches exactly its two ASCII cases (Canonicalize never
    maps a code unit above 127 onto one below), and [\w] is
    [[A-Za-z0-9_]]. *)

Definition asciiUpper (c : char) : char :=
  (if (97 <=? c) && (c <=? 122) then c - 32 else c)%N.

Definition ciMatch (p c : char) : bool :=
  (asciiUpper p =? asciiUpper c)%N.

Definition isWordChar (c : char) : bool :=
  ((48 <=? c) && (c <=? 57) || (65 <=? c) && (c <=? 90)
   || (97 <=? c) && (c <=? 122) || (c =? 95))%N.

(** The keyword read case-insensitively at the head of [s]; the rest of [s]
    when it is there. *)
Fixpoint matchKeyword (kw s : jsstring) : option jsstring :=
  match kw with
  | [] => Some s
  | p :: kw' =>
      match s with
      | c :: s' => if ciMatch p c then matchKeyword kw' s' else None
      | [] => None
      end
  end.

(** [\b] right after a keyword (whose last letter is a word character). *)
Definition boundaryAfter (rest : jsstring) : bool :=
  match rest with
  | [] => true
  | c :: _ => negb (isWordChar c)
  end.

(** [/^kw\b/i.test(s)] *)
Definition startsWithWord (kw s : jsstring) : bool :=
  match matchKeyword kw s with
  | Some rest => boundaryAfter rest
  | None => false
  end.

(** [/^(kw1|kw2|...)\b/i.test(s)]; [/^(kw1\b|kw2\b|...)/i] is the same
    language. *)
Definition startsWithAny (kws : list jsstring) (s : jsstring) : bool :=
  existsb (fun kw => startsWithWord kw s) kws.

(** [/\bkw\b/i.test(s)]: the search scans every position; [prevWord] tells
    whether the code unit before the position is a word character. *)
Fixpoint containsWordFrom (prevWord : bool) (kw s : jsstring) : bool :=
  match s with
  | [] => false
  | c :: rest =>
      (negb prevWord && startsWithWord kw s)
      || containsWordFrom (isWordChar c) kw rest
  end.

Definition containsWord (kw s : jsstring) : bool :=
  containsWordFrom false kw s.

Definition containsAny (kws : list jsstring) (s : jsstring) : bool :=
  existsb (fun kw => containsWord kw s) kws.

(** [contains(/\bkw\b/i)] of [hasInlineNetZero]. *)
Definition contains (code : jsstring) (kw : string) : bool :=
  containsWord (js kw) code.

Arguments js s%_string.
Arguments contains code kw%_string.

(** [Procedure(?:C|DLL|CDLL)?]: the four words the group stands for. *)
Definition procedureWords : list jsstring :=
  [js "Procedure"; js "ProcedureC"; js "ProcedureDLL"; js "ProcedureCDLL"].

(** ** Code sanitizer *)

(** The loop of [stripStringsAndComments], from a given quote state. *)
Fixpoint stripFrom (inDq inSq : bool) (line : jsstring) : jsstring :=
  match line with
  | [] => []
  | ch :: rest =>
      if negb inDq && negb inSq && (ch =? ch_semicolon)%N then []
      else if negb inSq && (ch =? ch_dquote)%N then stripFrom (negb inDq) inSq rest
      else if negb inDq && (ch =? ch_squote)%N then stripFrom inDq (negb inSq) rest
      else if negb inDq && negb inSq then ch :: stripFrom inDq inSq rest
      else stripFrom inDq inSq rest
  end.

Definition stripStringsAndComments (line : jsstring) : jsstring :=
  stripFrom false false line.

(** The quote state [(inDq, inSq)] of the same loop once it has read
    [prefix]; [None] when the loop has already left at a comment marker. *)
Fixpoint quoteState (inDq inSq : bool) (prefix : jsstring) : option (bool * bool) :=
  match prefix with
  | [] => Some (inDq, inSq)
  | ch :: rest =>
      if negb inDq && negb inSq && (ch =? ch_semicolon)%N then None
      else if negb inSq && (ch =? ch_dquote)%N then quoteState (negb inDq) inSq rest
      else if negb inDq && (ch =? ch_squote)%N then quoteState inDq (negb inSq) rest
      else quoteState inDq inSq rest
  end.

(** ** Formatting options and the indent renderer *)

Record FormattingOptions := {
  tabSize : N;
  insertSpaces : bool
}.

Definition DEFAULT_OPTIONS : FormattingOptions :=
  {| tabSize := 4; insertSpaces := true |}.

(** [createIndent]: every call site passes [Math.max(0, _)] as level. *)
Definition createIndent (level : Z) (options : FormattingOptions) : jsstring :=
  let indentChar := if insertSpaces options then ch_space else ch_tab in
  let indentSize := if insertSpaces options then Z.of_N (tabSize options) else 1 in
  repeat indentChar (Z.to_nat (level * indentSize)).

(** ** Indentation state *)

Record FormatterState := {
  indentLevel : Z;
  inSelect : bool;
  selectBaseIndent : Z;
  caseActive : bool
}.

(** [initialState?.field ?? default] of [formatPureBasicCode], and the
    starting values of [computeInitialFormatterState]. *)
Definition startState : FormatterState :=
  {| indentLevel := 0; inSelect := false; selectBaseIndent := 0;
     caseActive := false |}.

Definition setIndentLevel (n : Z) (st : FormatterState) : FormatterState :=
  {| indentLevel := n; inSelect := inSelect st;
     selectBaseIndent := selectBaseIndent st; caseActive := caseActive st |}.

(** The net-zero test shared by both functions (source lines 116-127 and
    249-260); the formatter adds four more families. *)
Definition hasInlineNetZeroCommon (code : jsstring) : bool :=
  (contains code "If" && contains code "EndIf")
  || ((contains code "For" || contains code "ForEach") && contains code "Next")
  || (contains code "While" && contains code "Wend")
  || (contains code "Repeat" && (contains code "Until" || contains code "ForEver"))
  || (contains code "Select" && contains code "EndSelect")
  || (contains code "With" && contains code "EndWith")
  || (containsAny procedureWords code && contains code "EndProcedure")
  || (contains code "Module" && contains code "EndModule")
  || (contains code "DeclareModule" && contains code "EndDeclareModule")
  || (contains code "Structure" && contains code "EndStructure")
  || (contains code "Interface" && contains code "EndInterface")
  || (contains code "Enumeration" && contains code "EndEnumeration").

(** The predicates declared inside [formatPureBasicCode] (lines 105-133). *)
Module Format.

Definition closingWords : list jsstring :=
  map js ["EndProcedure"; "EndModule"; "EndStructure"; "EndIf"; "Next";
          "Wend"; "Until"; "ForEver"; "EndWith"; "EndDeclareModule";
          "EndInterface"; "EndEnumeration"; "EndMacro"; "EndDataSection";
          "CompilerEndIf"; "CompilerEndSelect"]%string.

Definition openingWords : list jsstring :=
  procedureWords ++
  map js ["Module"; "Structure"; "If"; "For"; "ForEach"; "While"; "Repeat";
          "With"; "DeclareModule"; "Interface"; "Enumeration"; "Macro";
          "DataSection"; "CompilerIf"; "CompilerSelect"]%string.

Definition middleWords : list jsstring :=
  map js ["Else"; "ElseIf"; "CompilerElse"; "CompilerElseIf"]%string.

Definition isClosing (l : jsstring) : bool := startsWithAny closingWords l.
Definition isOpening (l : jsstring) : bool := startsWithAny openingWords l.
Definition isEndSelect (l : jsstring) : bool := startsWithWord (js "EndSelect") l.
Definition isSelect (l : jsstring) : bool := startsWithWord (js "Select") l.
Definition isCase (l : jsstring) : bool :=
  startsWithAny [js "Case"; js "Default"] l.
Definition isMiddle (l : jsstring) : bool := startsWithAny middleWords l.

Definition hasInlineNetZero (code : jsstring) : bool :=
  hasInlineNetZeroCommon code
  || (contains code "Macro" && contains code "EndMacro")
  || (contains code "DataSection" && contains code "EndDataSection")
  || (contains code "CompilerIf" && contains code "CompilerEndIf")
  || (contains code "CompilerSelect" && contains code "CompilerEndSelect").

End Format.

(** The predicates declared inside [computeInitialFormatterState]
    (lines 239-262). *)
Module Initial.

Definition closingWords : list jsstring :=
  map js ["EndProcedure"; "EndModule"; "EndStructure"; "EndIf"; "Next";
          "Wend"; "Until"; "ForEver"; "EndWith"; "EndDeclareModule";
          "EndInterface"; "EndEnumeration"]%string.

Definition openingWords : list jsstring :=
  procedureWords ++
  map js ["Module"; "Structure"; "If"; "For"; "ForEach"; "While"; "Repeat";
          "With"; "DeclareModule"; "Interface"; "Enumeration"]%string.

Definition middleWords : list jsstring := map js ["Else"; "ElseIf"]%string.

Definition isClosing (l : jsstring) : bool := startsWithAny closingWords l.
Definition isOpening (l : jsstring) : bool := startsWithAny openingWords l.
Definition isEndSelect (l : jsstring) : bool := startsWithWord (js "EndSelect") l.
Definition isSelect (l : jsstring) : bool := startsWithWord (js "Select") l.
Definition isCase (l : jsstring) : bool :=
  startsWithAny [js "Case"; js "Default"] l.
Definition isMiddle (l : jsstring) : bool := startsWithAny middleWords l.

Definition hasInlineNetZero (code : jsstring) : bool :=
  hasInlineNetZeroCommon code.

End Initial.

(** ** The full-document pass *)

(** Lines 150-218 of the loop body, for a line that is neither blank nor a
    comment: the level the line is rendered at ([lineIndent], before the
    final [Math.max(0, _)]) and the state left for the next line. *)
Definition indentStep (st0 : FormatterState) (code : jsstring)
  : Z * FormatterState :=
  let lineIndent0 := indentLevel st0 in
  let inlineIf :=
    startsWithWord (js "If") code && containsWord (js "EndIf") code in
  let inlineAny := Format.hasInlineNetZero code in
  (* lines 157-181 *)
  let '(lineIndent1, st1) :=
    if negb inlineAny && Format.isEndSelect code then
      if inSelect st0 then
        (Z.max 0 (selectBaseIndent st0),
         {| indentLevel := selectBaseIndent st0; inSelect := false;
            selectBaseIndent := selectBaseIndent st0; caseActive := false |})
      else
        let l := Z.max 0 (indentLevel st0 - 1) in (l, setIndentLevel l st0)
    else if negb inlineAny && Format.isSelect code then
      (indentLevel st0, st0)
    else if negb inlineAny && inSelect st0 && Format.isCase code then
      (selectBaseIndent st0 + 1, st0)
    else if negb inlineAny && Format.isClosing code then
      let l := Z.max 0 (indentLevel st0 - 1) in (l, setIndentLevel l st0)
    else (lineIndent0, st0) in
  (* lines 184-189 *)
  let '(lineIndent2, st2, restoreAfter) :=
    if negb inlineAny && negb (Format.isSelect code)
       && negb (Format.isEndSelect code) && Format.isMiddle code then
      let l := Z.max 0 (lineIndent1 - 1) in (l, setIndentLevel l st1, true)
    else (lineIndent1, st1, false) in
  (* lines 196-210 *)
  let st3 :=
    if inlineAny then st2
    else if Format.isSelect code then
      {| indentLevel := lineIndent2 + 1; inSelect := true;
         selectBaseIndent := lineIndent2; caseActive := false |}
    else if negb inlineIf && inSelect st2 && Format.isCase code then
      {| indentLevel := selectBaseIndent st2 + 2; inSelect := inSelect st2;
         selectBaseIndent := selectBaseIndent st2; caseActive := true |}
    else if negb inlineAny && Format.isOpening code then
      setIndentLevel (indentLevel st2 + 1) st2
    else st2 in
  (* lines 211-213 *)
  let st4 :=
    if negb inlineAny && restoreAfter
    then setIndentLevel (indentLevel st3 + 1) st3 else st3 in
  (* lines 216-218 *)
  let st5 :=
    if negb inlineAny && inSelect st4 && negb (caseActive st4)
       && negb (Format.isEndSelect code) && negb (Format.isCase code)
       && negb (Format.isSelect code)
    then setIndentLevel (Z.max (indentLevel st4) (selectBaseIndent st4 + 1)) st4
    else st4 in
  (lineIndent2, st5).

(** One iteration of the loop (lines 136-218): the state after the line and
    the string pushed onto [out]. *)
Definition formatLine (options : FormattingOptions) (st : FormatterState)
                      (raw : jsstring) : FormatterState * jsstring :=
  let trimmed := trim raw in
  let code := trim (stripStringsAndComments raw) in
  if isEmpty trimmed then (st, [])
  else if startsWithSemicolon trimmed then
    (st, createIndent (Z.max 0 (indentLevel st)) options ++ trimmed)
  else
    let '(lineIndent, st') := indentStep st code in
    (st', createIndent (Z.max 0 lineIndent) options ++ trimmed).

(** The loop itself: the array [out] and the state when the loop ends. *)
Fixpoint formatLines (options : FormattingOptions) (st : FormatterState)
                     (lines : list jsstring) : list jsstring * FormatterState :=
  match lines with
  | [] => ([], st)
  | raw :: rest =>
      let '(st', o) := formatLine options st raw in
      let '(out, final) := formatLines options st' rest in
      (o :: out, final)
  end.

Definition formatPureBasicCode (text : jsstring) (options : FormattingOptions)
                               (initialState : option FormatterState) : jsstring :=
  let st := match initialState with Some s => s | None => startState end in
  join (fst (formatLines options st (split text))).

(** The four loop variables of [formatPureBasicCode] once it has consumed
    [lines] from the start of a document. *)
Definition formatterStateAfter (options : FormattingOptions)
                               (lines : list jsstring) : FormatterState :=
  snd (formatLines options startState lines).

(** ** The state reconstructor *)

(** Lines 275-311 of the loop body of [computeInitialFormatterState]. *)
Definition initialStep (st0 : FormatterState) (code : jsstring) : FormatterState :=
  let inlineAny := Initial.hasInlineNetZero code in
  (* lines 277-295 *)
  let st1 :=
    if negb inlineAny && Initial.isEndSelect code then
      if inSelect st0 then
        {| indentLevel := Z.max 0 (selectBaseIndent st0); inSelect := false;
           selectBaseIndent := selectBaseIndent st0; caseActive := false |}
      else setIndentLevel (Z.max 0 (indentLevel st0 - 1)) st0
    else if negb inlineAny && Initial.isSelect code then
      {| indentLevel := indentLevel st0 + 1; inSelect := true;
         selectBaseIndent := indentLevel st0; caseActive := false |}
    else if negb inlineAny && Initial.isClosing code then
      setIndentLevel (Z.max 0 (indentLevel st0 - 1)) st0
    else st0 in
  (* lines 298-307 *)
  let st2 :=
    if inlineAny then st1
    else if Initial.isSelect code then st1
    else if negb inlineAny && inSelect st1 && Initial.isCase code then
      setIndentLevel (selectBaseIndent st1 + 2) st1
    else if negb inlineAny && Initial.isOpening code then
      setIndentLevel (indentLevel st1 + 1) st1
    else st1 in
  (* lines 309-311 *)
  if negb inlineAny && inSelect st2 && negb (caseActive st2)
     && negb (Initial.isEndSelect code) && negb (Initial.isCase code)
     && negb (Initial.isSelect code)
  then setIndentLevel (Z.max (indentLevel st2) (selectBaseIndent st2 + 1)) st2
  else st2.

Definition initialLine (st : FormatterState) (raw : jsstring) : FormatterState :=
  let trimmed := trim raw in
  let code := trim (stripStringsAndComments raw) in
  if isEmpty trimmed || startsWithSemicolon trimmed then st
  else initialStep st code.

Definition computeInitialFormatterState (linesBefore : list jsstring)
  : FormatterState :=
  fold_left initialLine linesBefore startState.

(** ** Request handlers

    Positions, ranges, edits and the text buffer [TextDocument] come from
    the language-server libraries.  The buffer is taken as given, with the
    three operations the handlers call: how it numbers lines and what it
    returns for a range is the library's business, not the provider's.  A
    handler returns the list of edits, which is empty or holds the single
    replacement.  [options] is the result of [mergeOptions]. *)

Record Position := {
  line : nat;
  character : nat
}.

Record Range := {
  rangeStart : Position;
  rangeEnd : Position
}.

(** [TextEdit.replace(range, newText)] *)
Record TextEdit := {
  editRange : Range;
  newText : jsstring
}.

Record TextDocument := {
  getText : jsstring;              (* document.getText() *)
  getTextIn : Range -> jsstring;   (* document.getText(range) *)
  positionAt : nat -> Position     (* document.positionAt(offset) *)
}.

Definition expandToFullLines (document : TextDocument) (range : Range) : Range :=
  let startLine := line (rangeStart range) in
  let endLine := line (rangeEnd range) in
  {| rangeStart := {| line := startLine; character := 0 |};
     rangeEnd :=
       {| line := endLine;
          character :=
            length (getTextIn document
                      {| rangeStart := {| line := endLine; character := 0 |};
                         rangeEnd := {| line := endLine + 1; character := 0 |} |}) |} |}.

Definition handleDocumentFormatting (options : FormattingOptions)
                                    (document : TextDocument) : list TextEdit :=
  let text := getText document in
  let fullRange :=
    {| rangeStart := {| line := 0; character := 0 |};
       rangeEnd := positionAt document (length text) |} in
  let formattedText := formatPureBasicCode text options None in
  if list_eq_dec N.eq_dec formattedText text then []
  else [{| editRange := fullRange; newText := formattedText |}].

Definition handleDocumentRangeFormatting (options : FormattingOptions)
    (range : Range) (document : TextDocument) : list TextEdit :=
  let text := getText document in
  let expandedRange := expandToFullLines document range in
  let expandedText := getTextIn document expandedRange in
  let linesBefore := slice 0 (line (rangeStart expandedRange)) (split text) in
  let initialState := computeInitialFormatterState linesBefore in
  let formattedText := formatPureBasicCode expandedText options (Some initialState) in
  if list_eq_dec N.eq_dec formattedText expandedText then []
  else [{| editRange := expandedRange; newText := formattedText |}].

(** A buffer to run the handlers on: the text is cut into lines at line
    feeds only, and a position past the end of a line stands at the end of
    that line, before its terminator. *)
Definition lineStartOffset (lines : list jsstring) (k : nat) : nat :=
  length (join (firstn k lines)) + (if (k =? 0)%nat then 0 else 1).

Definition offsetAt (text : jsstring) (p : Position) : nat :=
  let lines := split text in
  if (line p <? length lines)%nat
  then lineStartOffset lines (line p)
       + Nat.min (character p) (length (nth (line p) lines []))
  else length text.

Fixpoint positionFrom (l c : nat) (text : jsstring) (offset : nat) : Position :=
  match offset, text with
  | S k, x :: rest =>
      if (x =? ch_newline)%N then positionFrom (S l) 0 rest k
      else positionFrom l (S c) rest k
  | _, _ => {| line := l; character := c |}
  end.

Definition lineDocument (text : jsstring) : TextDocument :=
  {| getText := text;
     getTextIn := fun r =>
       firstn (offsetAt text (rangeEnd r) - offsetAt text (rangeStart r))
              (skipn (offsetAt text (rangeStart r)) text);
     positionAt := positionFrom 0 0 text |}.

(** The buffer returns for the expanded range of [range] the lines of the
    range as [split] cuts them, joined, without the terminator of the last
    one.  This is a hypothesis on the buffer wherever it is used: it fails
    on a text with carriage returns, whose lines the buffer does not cut as
    [split] does, and on a buffer that counts the line terminator into the
    expanded range. *)
Definition servesLines (document : TextDocument) (range : Range) : Prop :=
  getTextIn document (expandToFullLines document range)
  = join (slice (line (rangeStart range)) (S (line (rangeEnd range)))
                (split (getText document))).

(** The range of the whole lines [s] to [e]. *)
Definition linesRange (s e : nat) : Range :=
  {| rangeStart := {| line := s; character := 0 |};
     rangeEnd := {| line := e; character := 0 |} |}.

(** ** Predicates used in the statements *)

(** A string made of whitespace only. *)
Definition allWs (s : jsstring) : Prop :=
  Forall (fun c => isWhiteSpace c = true) s.

(** A string without line feed, as every piece of [split] is. *)
Definition noNewline (s : jsstring) : Prop := ~ In ch_newline s.

(** The counters are non-negative. *)
Definition nonNegative (st : FormatterState) : Prop :=
  0 <= indentLevel st /\ 0 <= selectBaseIndent st.

(** Inside a Select whose first Case is still to come, the level stays
    above the Select line (lines 216-218 keep it so). *)
Definition pinned (st : FormatterState) : Prop :=
  inSelect st = true -> caseActive st = false ->
  selectBaseIndent st + 1 <= indentLevel st.

(** Scenario C of the specification. *)
Definition scenarioC : list jsstring :=
  map js ["Select a"; "Case 1"; "foo()"; "Default"; "bar()"; "EndSelect"]%string.

(** A document that full formatting leaves as it is, with a Macro block. *)
Definition macroDocument : jsstring :=
  join (map js ["Macro M"; "    x"; "EndMacro"]%string).

(** Two keywords that are the same up to letter case. *)
Fixpoint keywordEq (k1 k2 : jsstring) : bool :=
  match k1, k2 with
  | [], [] => true
  | p :: k1', r :: k2' => ciMatch p r && keywordEq k1' k2'
  | _, _ => false
  end.

(** Keyword tables: every entry is made of word characters, and two tables
    have no keyword in common. *)
Definition wordTable (kws : list jsstring) : bool :=
  forallb (forallb isWordChar) kws.

Definition disjointTables (t1 t2 : list jsstring) : bool :=
  forallb (fun k1 => forallb (fun k2 => negb (keywordEq k1 k2)) t2) t1.

(** ** Range edits and the rules both passes share *)

(** The text after a replacement of the whole lines [s] to [e] by
    [replacement]. *)
Definition replaceLines (text : jsstring) (s e : nat) (replacement : jsstring)
  : jsstring :=
  let lines := split text in
  join (firstn s lines ++ split replacement ++ skipn (S e) lines).

(** A line on which the tables of [computeInitialFormatterState] and of
    [formatPureBasicCode] say the same, and which meets neither of the two
    updates the reconstructor leaves out: an Else-like line at level 0 and
    a Case label inside a Select. *)
Definition sharedRules (st : FormatterState) (code : jsstring) : bool :=
  Bool.eqb (Format.hasInlineNetZero code) (Initial.hasInlineNetZero code)
  && (Format.hasInlineNetZero code
      || (Bool.eqb (Format.isClosing code) (Initial.isClosing code)
          && Bool.eqb (Format.isOpening code) (Initial.isOpening code)
          && (negb (Format.isMiddle code) || (1 <=? indentLevel st))
          && negb (inSelect st && Format.isCase code))).

(** [sharedRules] holds for every code line of [lines], each taken in the
    state the formatter has when it reaches the line. *)
Fixpoint sharedAlong (st : FormatterState) (lines : list jsstring) : bool :=
  match lines with
  | [] => true
  | raw :: rest =>
      let trimmed := trim raw in
      let code := trim (stripStringsAndComments raw) in
      if isEmpty trimmed || startsWithSemicolon trimmed
      then sharedAlong st rest
      else sharedRules st code && sharedAlong (snd (indentStep st code)) rest
  end.

(** What lines 216-218 make of the level [n] after a line that is not a
    Select, EndSelect or Case line and not a single-line block. *)
Definition pinLevel (st : FormatterState) (n : Z) : Z :=
  if inSelect st && negb (caseActive st)
  then Z.max n (selectBaseIndent st + 1) else n.

(** ** Project files: shared/parsers/pbp-parser.ts

    [s.replace(/literal/g, rep)] for a non-empty literal pattern: the
    matches are taken from left to right and do not overlap.  [skip] counts
    the code units of the current match that are still to be passed. *)

Fixpoint literalAt (pat s : jsstring) : bool :=
  match pat with
  | [] => true
  | p :: pat' =>
      match s with
      | c :: s' => (p =? c)%N && literalAt pat' s'
      | [] => false
      end
  end.

Fixpoint replaceAllFrom (skip : nat) (pat rep s : jsstring) : jsstring :=
  match s with
  | [] => []
  | c :: rest =>
      match skip with
      | S k => replaceAllFrom k pat rep rest
      | O =>
          if literalAt pat s
          then rep ++ replaceAllFrom (length pat - 1) pat rep rest
          else c :: replaceAllFrom 0 pat rep rest
      end
  end.

Definition replaceAll (pat rep s : jsstring) : jsstring :=
  replaceAllFrom 0 pat rep s.

Definition ch_cr : char := 13%N.
Definition ch_amp : char := 38%N.
Definition ch_lt : char := 60%N.
Definition ch_gt : char := 62%N.

Definition normalizeNewlines (content : jsstring) : jsstring :=
  replaceAll [ch_cr] [ch_newline]
    (replaceAll [ch_cr; ch_newline] [ch_newline] content).

Definition decodeXmlEntities (s : jsstring) : jsstring :=
  replaceAll (js "&amp;") [ch_amp]
    (replaceAll (js "&gt;") [ch_gt]
       (replaceAll (js "&lt;") [ch_lt]
          (replaceAll (js "&apos;") [ch_squote]
             (replaceAll (js "&quot;") [ch_dquote] s)))).

(** The XML text of a string: each of the five characters as its entity.
    This is the writer's side of the format, which the repository only
    reads; it serves to state what [decodeXmlEntities] undoes. *)
Definition xmlEntity (c : char) : jsstring :=
  if (c =? ch_dquote)%N then js "&quot;"
  else if (c =? ch_squote)%N then js "&apos;"
  else if (c =? ch_lt)%N then js "&lt;"
  else if (c =? ch_gt)%N then js "&gt;"
  else if (c =? ch_amp)%N then js "&amp;"
  else [c].

Definition xmlEscape (s : jsstring) : jsstring := flat_map xmlEntity s.

(** [x.toLowerCase().endsWith(suffix)] for the ASCII suffixes of the
    parser ([.pb], [.pbi]): no code unit outside ASCII has a lower case that
    ends in one of their letters, so the test reads the last code units of
    [x] up to ASCII case. *)
Definition lowerEndsWith (suffix x : jsstring) : bool :=
  match matchKeyword (rev suffix) (rev x) with
  | Some _ => true
  | None => false
  end.

(** Records and functions of the parser. *)
Module Pbp.

Record PbpTargetValue := {
  tvRawPath : jsstring;
  tvFsPath : jsstring
}.

Record PbpIcon := {
  iconEnabled : bool;
  iconRawPath : jsstring;
  iconFsPath : jsstring
}.

(** [Record<string, T>] as a lookup. *)
Record PbpTarget := {
  targetName : jsstring;
  enabled : bool;
  isDefault : bool;
  inputFile : PbpTargetValue;
  outputFile : PbpTargetValue;
  executable : PbpTargetValue;
  targetOptions : jsstring -> option bool;
  format : option (jsstring -> option jsstring);
  icon : option PbpIcon;
  constants : list (bool * jsstring)
}.

Record PbpFileConfig := {
  cfgLoad : option bool;
  cfgScan : option bool;
  cfgPanel : option bool;
  cfgWarn : option bool
}.

Record PbpFileEntry := {
  rawPath : jsstring;
  fsPath : jsstring;
  config : option PbpFileConfig
}.

Record PbpProject := {
  projectFile : jsstring;
  projectDir : jsstring;
  projectName : jsstring;
  comment : jsstring;
  files : list PbpFileEntry;
  targets : list PbpTarget
}.

Definition selectDefaultTarget (project : PbpProject) : option PbpTarget :=
  match find (fun t => enabled t && isDefault t) (targets project) with
  | Some explicitDefault => Some explicitDefault
  | None => find (fun t => enabled t) (targets project)
  end.

Definition getProjectSourceFiles (project : PbpProject) : list jsstring :=
  filter (fun p => lowerEndsWith (js ".pb") p) (map fsPath (files project)).

Definition getProjectIncludeFiles (project : PbpProject) : list jsstring :=
  filter (fun p => lowerEndsWith (js ".pbi") p) (map fsPath (files project)).

End Pbp.

(** The XML text with the characters of [done] already decoded: what the
    replacements of [decodeXmlEntities] leave one after the other. *)
Definition escChunk (done : list char) (c : char) : jsstring :=
  if existsb (N.eqb c) done then [c] else xmlEntity c.

Definition escapeExcept (done : list char) (s : jsstring) : jsstring :=
  flat_map (escChunk done) s.

(** [pat] and [u] differ at a position both have. *)
Fixpoint differsWithin (pat u : jsstring) : bool :=
  match pat, u with
  | p :: pat', c :: u' => negb (p =? c)%N || differsWithin pat' u'
  | _, _ => false
  end.

(** No match of [pat] starts inside [chunk], whatever follows it. *)
Fixpoint clearOf (pat chunk : jsstring) : bool :=
  match chunk with
  | [] => true
  | _ :: chunk' => differsWithin pat chunk && clearOf pat chunk'
  end.

(** [x.endsWith(suffix)] *)
Definition endsWith (suffix x : jsstring) : bool :=
  literalAt (rev suffix) (rev x).

(** [a ?? b] on a value that may be undefined. *)
Definition nullish {A} (a : option A) (b : option A) : option A :=
  match a with Some v => Some v | None => b end.

(** [indexOf(c)]: the first position of [c], if any. *)
Fixpoint indexOf (c : char) (s : jsstring) : option nat :=
  match s with
  | [] => None
  | x :: rest =>
      if (x =? c)%N then Some 0%nat
      else match indexOf c rest with
           | Some i => Some (S i)
           | None => None
           end
  end.

(** [a === b] on strings. *)
Definition strEq (a b : jsstring) : bool :=
  if list_eq_dec N.eq_dec a b then true else false.

(** [x.startsWith(prefix)] *)
Definition startsWith (prefix x : jsstring) : bool := literalAt prefix x.

(** [parseIniProject] (lines 296-341).  [resolveProjectPath] rests on the
    [path] module of the Node runtime and is taken as given. *)
Module Ini.

Section Resolve.

Variable resolveProjectPath : jsstring -> jsstring -> jsstring.

(** The variables of the loop. *)
Record State := {
  currentSection : jsstring;
  name : jsstring;
  comment : jsstring;
  files : list Pbp.PbpFileEntry
}.

Definition start : State :=
  {| currentSection := []; name := []; comment := []; files := [] |}.

(** One iteration of the loop (lines 306-329). *)
Definition step (projectDir : jsstring) (st : State) (rawLine : jsstring) : State :=
  let line := trim rawLine in
  if isEmpty line || startsWithSemicolon line then st
  else if startsWith (js "[") line && endsWith (js "]") line then
    {| currentSection := removelast (tl line); name := name st;
       comment := comment st; files := files st |}
  else
    match indexOf 61%N line with
    | None => st
    | Some eq =>
        let key := trim (firstn eq line) in
        let value := trim (skipn (S eq) line) in
        let st1 :=
          if strEq (currentSection st) (js "Project") then
            let s1 :=
              if strEq key (js "Name")
              then {| currentSection := currentSection st; name := value;
                      comment := comment st; files := files st |}
              else st in
            if strEq key (js "Comment")
            then {| currentSection := currentSection s1; name := name s1;
                    comment := value; files := files s1 |}
            else s1
          else st in
        if strEq (currentSection st1) (js "Files") then
          match matchKeyword (js "source") key with
          | Some _ =>
              {| currentSection := currentSection st1; name := name st1;
                 comment := comment st1;
                 files := files st1
                            ++ [{| Pbp.rawPath := value;
                                   Pbp.fsPath := resolveProjectPath projectDir value;
                                   Pbp.config := None |}] |}
          | None => st1
          end
        else st1
    end.

Definition parseIniProject (content projectFileFsPath projectDir : jsstring)
  : Pbp.PbpProject :=
  let st := fold_left (step projectDir) (split content) start in
  {| Pbp.projectFile := projectFileFsPath;
     Pbp.projectDir := projectDir;
     Pbp.projectName := name st;
     Pbp.comment := comment st;
     Pbp.files := files st;
     Pbp.targets := [] |}.

End Resolve.

End Ini.

(** A target with another output file. *)
Definition withOutputFile (v : Pbp.PbpTargetValue) (t : Pbp.PbpTarget)
  : Pbp.PbpTarget :=
  {| Pbp.targetName := Pbp.targetName t; Pbp.enabled := Pbp.enabled t;
     Pbp.isDefault := Pbp.isDefault t; Pbp.inputFile := Pbp.inputFile t;
     Pbp.outputFile := v; Pbp.executable := Pbp.executable t;
     Pbp.targetOptions := Pbp.targetOptions t; Pbp.format := Pbp.format t;
     Pbp.icon := Pbp.icon t; Pbp.constants := Pbp.constants t |}.

Definition withTargets (ts : list Pbp.PbpTarget) (p : Pbp.PbpProject)
  : Pbp.PbpProject :=
  {| Pbp.projectFile := Pbp.projectFile p; Pbp.projectDir := Pbp.projectDir p;
     Pbp.projectName := Pbp.projectName p; Pbp.comment := Pbp.comment p;
     Pbp.files := Pbp.files p; Pbp.targets := ts |}.

(** The server's view of a project (server wrapper of the parser). *)
Module Server.

Record BuildSettings := {
  executable : jsstring;
  target : jsstring;
  enableDebugger : bool;
  enableUnicode : bool;
  enableThreads : bool;
  enableOnError : bool;
  enablePurifier : bool;
  enableConstantFolding : bool;
  enableInlineASM : bool;
  enableExplicit : bool;
  enableOptimizer : bool;
  subsystem : jsstring;
  commandLine : jsstring
}.

Record ProjectFile := {
  name : jsstring;
  version : jsstring;
  author : jsstring;
  sourceFiles : list jsstring;
  includeFiles : list jsstring;
  libraries : list jsstring;
  buildSettings : BuildSettings;
  filePath : jsstring;
  directory : jsstring
}.

Section Platform.

(** [path.sep] and [process.platform] of the Node runtime. *)
Variable pathSep : jsstring.
Variable platform : jsstring.

Definition ensureTrailingSep (dirPath : jsstring) : jsstring :=
  if isEmpty dirPath then []
  else if endsWith pathSep dirPath then dirPath else dirPath ++ pathSep.

Definition mapToServerProjectFile (documentUri : jsstring) (pbp : Pbp.PbpProject)
  : ProjectFile :=
  let defaultTarget := Pbp.selectDefaultTarget pbp in
  let option_of (key : jsstring) : bool :=
    match nullish (match defaultTarget with
                   | Some t => Pbp.targetOptions t key
                   | None => None
                   end) (Some false) with
    | Some b => b
    | None => false
    end in
  let enableDebugger := option_of (js "debug") in
  let enableUnicode := option_of (js "unicode") in
  let enableThreads := option_of (js "thread") in
  let enableOnError := option_of (js "onerror") in
  {| name := Pbp.projectName pbp;
     version := js "1.0.0";
     author := [];
     sourceFiles := Pbp.getProjectSourceFiles pbp;
     includeFiles := Pbp.getProjectIncludeFiles pbp;
     libraries := [];
     buildSettings :=
       {| executable :=
            match nullish
                    (nullish
                       (option_map (fun t => Pbp.tvFsPath (Pbp.executable t))
                                   defaultTarget)
                       (option_map (fun t => Pbp.tvFsPath (Pbp.outputFile t))
                                   defaultTarget))
                    (Some []) with
            | Some v => v
            | None => []
            end;
          target := platform;
          enableDebugger := enableDebugger;
          enableUnicode := enableUnicode;
          enableThreads := enableThreads;
          enableOnError := enableOnError;
          enablePurifier := false;
          enableConstantFolding := false;
          enableInlineASM := false;
          enableExplicit := false;
          enableOptimizer := false;
          subsystem :=
            match nullish
                    (match defaultTarget with
                     | Some t =>
                         match Pbp.format t with
                         | Some f => f (js "exe")
                         | None => None
                         end
                     | None => None
                     end) (Some []) with
            | Some v => v
            | None => []
            end;
          commandLine := [] |};
     filePath := documentUri;
     directory := ensureTrailingSep (Pbp.projectDir pbp) |}.

End Platform.

Definition extractProjectFiles (project : ProjectFile) : list jsstring :=
  sourceFiles project ++ includeFiles project.

End Server.

(** * Properties *)

(** ** Whitespace and [trim] *)

Section TrimFacts.

Lemma allWs_app (a b : jsstring) : allWs a -> allWs b -> allWs (a ++ b).
Proof. intros Ha Hb. apply Forall_app. split; assumption. Qed.

Lemma trimStart_allWs (ws : jsstring) : allWs ws -> trimStart ws = [].
Proof.
  induction 1 as [|c ws Hc _ IH]; simpl; [reflexivity|].
  rewrite Hc. exact IH.
Qed.

Lemma trimStart_ws_app (ws s : jsstring) :
  allWs ws -> trimStart (ws ++ s) = trimStart s.
Proof.
  induction 1 as [|c ws Hc _ IH]; simpl; [reflexivity|].
  rewrite Hc. exact IH.
Qed.

Lemma trimStart_split (s : jsstring) :
  exists lead, allWs lead /\ s = lead ++ trimStart s.
Proof.
  induction s as [|c s [lead [Hl He]]]; simpl.
  - exists []. split; [constructor | reflexivity].
  - destruct (isWhiteSpace c) eqn:Hc.
    + exists (c :: lead). split; [constructor; assumption|].
      simpl. f_equal. exact He.
    + exists []. split; [constructor | reflexivity].
Qed.

Lemma trimStart_head (s r : jsstring) (c : char) :
  trimStart s = c :: r -> isWhiteSpace c = false.
Proof.
  induction s as [|d s IH]; simpl; [discriminate|].
  destruct (isWhiteSpace d) eqn:Hd; [exact IH|].
  intros H. injection H as -> _. exact Hd.
Qed.

Lemma trimEnd_cons (c : char) (s : jsstring) :
  trimEnd (c :: s)
  = if isWhiteSpace c && isEmpty (trimEnd s) then [] else c :: trimEnd s.
Proof. reflexivity. Qed.

Lemma trimEnd_allWs (ws : jsstring) : allWs ws -> trimEnd ws = [].
Proof.
  induction 1 as [|c ws Hc _ IH]; [reflexivity|].
  rewrite trimEnd_cons, IH, Hc. reflexivity.
Qed.

Lemma trimEnd_app_ws (s ws : jsstring) :
  allWs ws -> trimEnd (s ++ ws) = trimEnd s.
Proof.
  intros Hws. induction s as [|c s IH]; simpl app.
  - apply trimEnd_allWs. exact Hws.
  - rewrite !trimEnd_cons, IH. reflexivity.
Qed.

Lemma trimEnd_split (s : jsstring) :
  exists trail, allWs trail /\ s = trimEnd s ++ trail.
Proof.
  induction s as [|c s [trail [Ht He]]].
  - exists []. split; [constructor | reflexivity].
  - rewrite trimEnd_cons.
    destruct (isWhiteSpace c) eqn:Hc; simpl.
    + destruct (trimEnd s) eqn:Hs; simpl in *.
      * exists (c :: trail). split; [constructor; assumption|].
        f_equal. exact He.
      * exists trail. split; [assumption|]. f_equal. exact He.
    + exists trail. split; [assumption|]. f_equal. exact He.
Qed.

Lemma trimEnd_idem (s : jsstring) : trimEnd (trimEnd s) = trimEnd s.
Proof.
  induction s as [|c s IH]; [reflexivity|].
  rewrite trimEnd_cons.
  destruct (isWhiteSpace c && isEmpty (trimEnd s)) eqn:E; [reflexivity|].
  rewrite trimEnd_cons, IH, E. reflexivity.
Qed.

Lemma trimEnd_keeps_head (c : char) (s : jsstring) :
  isWhiteSpace c = false -> trimEnd (c :: s) = c :: trimEnd s.
Proof. intros Hc. rewrite trimEnd_cons, Hc. reflexivity. Qed.

Lemma trimStart_trim (s : jsstring) : trimStart (trim s) = trim s.
Proof.
  unfold trim. destruct (trimStart s) as [|c u] eqn:E; [reflexivity|].
  pose proof (trimStart_head _ _ _ E) as Hc.
  rewrite trimEnd_keeps_head by exact Hc. simpl. rewrite Hc. reflexivity.
Qed.

Lemma trim_idem (s : jsstring) : trim (trim s) = trim s.
Proof.
  unfold trim at 1. rewrite trimStart_trim. unfold trim.
  apply trimEnd_idem.
Qed.

Lemma trim_ws_app (ws s : jsstring) : allWs ws -> trim (ws ++ s) = trim s.
Proof. intros H. unfold trim. rewrite trimStart_ws_app by exact H. reflexivity. Qed.

Lemma trim_allWs (ws : jsstring) : allWs ws -> trim ws = [].
Proof. intros H. unfold trim. rewrite trimStart_allWs by exact H. reflexivity. Qed.

Lemma trim_app_ws (s ws : jsstring) : allWs ws -> trim (s ++ ws) = trim s.
Proof.
  intros Hws. induction s as [|c s IH]; simpl app.
  - rewrite trim_allWs by exact Hws. reflexivity.
  - unfold trim in *. simpl. destruct (isWhiteSpace c); [exact IH|].
    apply (trimEnd_app_ws (c :: s)). exact Hws.
Qed.

Lemma trim_split (raw : jsstring) :
  exists lead trail,
    allWs lead /\ allWs trail /\ raw = lead ++ trim raw ++ trail.
Proof.
  destruct (trimStart_split raw) as [lead [Hl He]].
  destruct (trimEnd_split (trimStart raw)) as [trail [Ht Hu]].
  exists lead, trail. split; [assumption|]. split; [assumption|].
  unfold trim. rewrite <- Hu. exact He.
Qed.

Lemma trim_indent (ws s : jsstring) :
  allWs ws -> trim (ws ++ trim s) = trim s.
Proof. intros H. rewrite trim_ws_app by exact H. apply trim_idem. Qed.

Lemma trim_nil_allWs (raw : jsstring) : trim raw = [] -> allWs raw.
Proof.
  intros H. destruct (trim_split raw) as [lead [trail [Hl [Ht He]]]].
  rewrite He, H. simpl. apply allWs_app; assumption.
Qed.

Lemma trim_incl (raw : jsstring) (c : char) : In c (trim raw) -> In c raw.
Proof.
  intros H. destruct (trim_split raw) as [lead [trail [_ [_ He]]]].
  rewrite He. apply in_or_app. right. apply in_or_app. left. exact H.
Qed.

Lemma trim_head_not_ws (raw r : jsstring) (c : char) :
  trim raw = c :: r -> isWhiteSpace c = false.
Proof.
  intros H. pose proof (trimStart_trim raw) as Ht. rewrite H in Ht.
  simpl in Ht. destruct (isWhiteSpace c); [|reflexivity].
  exfalso.
  assert (L : (length (trimStart r) <= length r)%nat).
  { clear. induction r as [|d r IH]; simpl; [lia|].
    destruct (isWhiteSpace d); simpl; lia. }
  rewrite Ht in L. simpl in L. lia.
Qed.

End TrimFacts.

(** ** The sanitizer *)

Section SanitizerFacts.

Lemma ws_not_special (c : char) :
  isWhiteSpace c = true ->
  (c =? ch_semicolon)%N = false /\ (c =? ch_dquote)%N = false
  /\ (c =? ch_squote)%N = false.
Proof.
  intros H. repeat split; apply N.eqb_neq; intros ->; discriminate H.
Qed.

Lemma stripFrom_ws_prefix (ws s : jsstring) :
  allWs ws ->
  stripFrom false false (ws ++ s) = ws ++ stripFrom false false s.
Proof.
  induction 1 as [|c ws Hc _ IH]; [reflexivity|].
  destruct (ws_not_special c Hc) as [H1 [H2 H3]].
  simpl. rewrite H1, H2, H3. simpl. f_equal. exact IH.
Qed.

Lemma stripFrom_ws (ws : jsstring) (d q : bool) :
  allWs ws -> allWs (stripFrom d q ws).
Proof.
  induction 1 as [|c ws Hc _ IH]; [constructor|].
  destruct (ws_not_special c Hc) as [H1 [H2 H3]].
  simpl. rewrite H1, H2, H3, !andb_false_r. simpl.
  destruct (negb d && negb q); [constructor|]; assumption.
Qed.

Lemma stripFrom_app_ws (s ws : jsstring) :
  allWs ws ->
  forall d q, exists t,
    allWs t /\ stripFrom d q (s ++ ws) = stripFrom d q s ++ t.
Proof.
  intros Hws. induction s as [|c s IH]; intros d q.
  - exists (stripFrom d q ws). split; [apply stripFrom_ws; exact Hws | reflexivity].
  - simpl.
    destruct (negb d && negb q && (c =? ch_semicolon)%N).
    { exists []. split; [constructor | reflexivity]. }
    destruct (negb q && (c =? ch_dquote)%N); [apply IH|].
    destruct (negb d && (c =? ch_squote)%N); [apply IH|].
    destruct (negb d && negb q); [|apply IH].
    destruct (IH d q) as [t [Ht He]].
    exists t. split; [exact Ht|]. simpl. f_equal. exact He.
Qed.

(** The scan of a concatenation resumes in the quote state the prefix
    leaves. *)
Lemma stripFrom_app (pre post : jsstring) :
  forall d q d' q',
    quoteState d q pre = Some (d', q') ->
    stripFrom d q (pre ++ post) = stripFrom d q pre ++ stripFrom d' q' post.
Proof.
  induction pre as [|c pre IH]; intros d q d' q' H; simpl in *.
  - injection H as -> ->. reflexivity.
  - destruct (negb d && negb q && (c =? ch_semicolon)%N); [discriminate|].
    destruct (negb q && (c =? ch_dquote)%N); [apply IH; exact H|].
    destruct (negb d && (c =? ch_squote)%N); [apply IH; exact H|].
    destruct (negb d && negb q); simpl; [f_equal|]; apply IH; exact H.
Qed.

(** Inside a double-quoted string everything up to the next double quote
    is dropped; likewise for single quotes. *)
Lemma stripFrom_open_dq (rest : jsstring) :
  ~ In ch_dquote rest -> stripFrom true false rest = [].
Proof.
  induction rest as [|c rest IH]; intros Hn; [reflexivity|].
  simpl. assert (Hc : (c =? ch_dquote)%N = false).
  { apply N.eqb_neq. intros ->. apply Hn. left. reflexivity. }
  rewrite Hc. apply IH. intros Hin. apply Hn. right. exact Hin.
Qed.

Lemma stripFrom_open_sq (rest : jsstring) :
  ~ In ch_squote rest -> stripFrom false true rest = [].
Proof.
  induction rest as [|c rest IH]; intros Hn; [reflexivity|].
  simpl. assert (Hc : (c =? ch_squote)%N = false).
  { apply N.eqb_neq. intros ->. apply Hn. left. reflexivity. }
  rewrite Hc. apply IH. intros Hin. apply Hn. right. exact Hin.
Qed.

Lemma strip_allWs (ws : jsstring) :
  allWs ws -> stripStringsAndComments ws = ws.
Proof.
  intros H. unfold stripStringsAndComments.
  rewrite <- (app_nil_r ws) at 1.
  rewrite stripFrom_ws_prefix by exact H. simpl. apply app_nil_r.
Qed.

(** The code seen by the classifier depends on the line only through its
    trimmed text: re-indenting a line does not change it. *)
Lemma code_of_reindented (ws raw : jsstring) :
  allWs ws ->
  trim (stripStringsAndComments (ws ++ trim raw))
  = trim (stripStringsAndComments raw).
Proof.
  intros Hws. unfold stripStringsAndComments.
  destruct (trim_split raw) as [lead [trail [Hl [Ht He]]]].
  rewrite He at 2.
  rewrite !stripFrom_ws_prefix by assumption.
  rewrite !trim_ws_app by assumption.
  destruct (stripFrom_app_ws (trim raw) trail Ht false false) as [t [Hta Hte]].
  rewrite Hte. rewrite trim_app_ws by exact Hta. reflexivity.
Qed.

(** A blank line and a comment line carry no code. *)
Lemma code_of_blank (raw : jsstring) :
  trim raw = [] -> trim (stripStringsAndComments raw) = [].
Proof.
  intros H. pose proof (trim_nil_allWs raw H) as Hws.
  rewrite strip_allWs by exact Hws. exact H.
Qed.

Lemma code_of_comment (raw : jsstring) :
  startsWithSemicolon (trim raw) = true ->
  trim (stripStringsAndComments raw) = [].
Proof.
  intros H. destruct (trim_split raw) as [lead [trail [Hl [_ He]]]].
  destruct (trim raw) as [|c r] eqn:E; [discriminate|].
  simpl in H. apply N.eqb_eq in H. subst c.
  rewrite He. unfold stripStringsAndComments.
  rewrite stripFrom_ws_prefix by exact Hl. simpl.
  rewrite app_nil_r. apply trim_allWs. exact Hl.
Qed.

End SanitizerFacts.

(** C10: [stripStringsAndComments] is a total function.  Let [(d, q)] be
    the quote state of its loop after a prefix of the line.  Outside any
    string ([d = q = false]) a [;] ends the output: everything from it on is
    removed.  Inside an open string a [;] is skipped like any other string
    content and the scan goes on in the same quote state, so what follows
    the closing quote is still kept.  A quote that opens a string never
    closed on the line removes the whole remainder of the line. *)
Theorem C10_stripStringsAndComments_spec :
  forall (pre : jsstring) (d q : bool),
    quoteState false false pre = Some (d, q) ->
    (forall post,
        stripStringsAndComments (pre ++ ch_semicolon :: post)
        = if negb d && negb q then stripStringsAndComments pre
          else stripStringsAndComments pre ++ stripFrom d q post)
    /\ (forall rest,
           d = false -> q = false -> ~ In ch_dquote rest ->
           stripStringsAndComments (pre ++ ch_dquote :: rest)
           = stripStringsAndComments pre)
    /\ (forall rest,
           d = false -> q = false -> ~ In ch_squote rest ->
           stripStringsAndComments (pre ++ ch_squote :: rest)
           = stripStringsAndComments pre).
Proof.
  intros pre d q Hst. unfold stripStringsAndComments.
  repeat split.
  - intros post. rewrite (stripFrom_app _ _ _ _ _ _ Hst).
    destruct d, q; simpl; try reflexivity. apply app_nil_r.
  - intros rest -> -> Hn. rewrite (stripFrom_app _ _ _ _ _ _ Hst).
    simpl. rewrite stripFrom_open_dq by exact Hn. apply app_nil_r.
  - intros rest -> -> Hn. rewrite (stripFrom_app _ _ _ _ _ _ Hst).
    simpl. rewrite stripFrom_open_sq by exact Hn. apply app_nil_r.
Qed.

Lemma C10_stripStringsAndComments_witness :
  quoteState false false (js "x = 1 ") = Some (false, false)
  /\ stripStringsAndComments (js "x = 1 ; note") = js "x = 1 ".
Proof.
  split; [reflexivity|].
  exact (proj1 (C10_stripStringsAndComments_spec (js "x = 1 ") false false eq_refl)
               (js " note")).
Defined.

(** ** Lines: [split] and [join] *)

Section LineFacts.

Lemma split_not_nil (text : jsstring) : split text <> [].
Proof.
  destruct text as [|c rest]; simpl; [discriminate|].
  destruct (c =? ch_newline)%N; [discriminate|].
  destruct (split rest); discriminate.
Qed.

Lemma split_noNewline (text : jsstring) : Forall noNewline (split text).
Proof.
  induction text as [|c rest IH]; simpl.
  - constructor; [intros []|constructor].
  - destruct (c =? ch_newline)%N eqn:Hc.
    + constructor; [intros []|exact IH].
    + apply N.eqb_neq in Hc.
      destruct (split rest) as [|l ls].
      * constructor; [|constructor]. intros [H|[]]. congruence.
      * inversion IH as [|? ? Hl Hls]; subst.
        constructor; [|exact Hls].
        intros [H|H]; [congruence | exact (Hl H)].
Qed.

Lemma split_app_newline (l rest : jsstring) :
  noNewline l -> split (l ++ ch_newline :: rest) = l :: split rest.
Proof.
  induction l as [|c l IH]; intros Hn; simpl.
  - reflexivity.
  - assert (Hc : (c =? ch_newline)%N = false).
    { apply N.eqb_neq. intros ->. apply Hn. left. reflexivity. }
    rewrite Hc, IH; [reflexivity|].
    intros H. apply Hn. right. exact H.
Qed.

Lemma split_single (l : jsstring) : noNewline l -> split l = [l].
Proof.
  induction l as [|c l IH]; intros Hn; simpl; [reflexivity|].
  assert (Hc : (c =? ch_newline)%N = false).
  { apply N.eqb_neq. intros ->. apply Hn. left. reflexivity. }
  rewrite Hc, IH; [reflexivity|].
  intros H. apply Hn. right. exact H.
Qed.

Lemma split_join (ls : list jsstring) :
  ls <> [] -> Forall noNewline ls -> split (join ls) = ls.
Proof.
  induction ls as [|l ls IH]; intros Hne Hall; [congruence|].
  inversion Hall as [|? ? Hl Hls]; subst.
  destruct ls as [|l' ls'].
  - simpl. apply split_single. exact Hl.
  - change (join (l :: l' :: ls')) with (l ++ ch_newline :: join (l' :: ls')).
    rewrite split_app_newline by exact Hl.
    f_equal. apply IH; [discriminate | exact Hls].
Qed.

Lemma join_split (text : jsstring) : join (split text) = text.
Proof.
  induction text as [|c rest IH]; simpl; [reflexivity|].
  destruct (c =? ch_newline)%N eqn:Hc.
  - apply N.eqb_eq in Hc. subst c.
    pose proof (split_not_nil rest) as Hne.
    destruct (split rest) as [|l ls]; [congruence|].
    change (join ([] :: l :: ls)) with ([] ++ ch_newline :: join (l :: ls)).
    rewrite IH. reflexivity.
  - pose proof (split_not_nil rest) as Hne.
    destruct (split rest) as [|l ls]; [congruence|].
    destruct ls as [|l' ls']; simpl in *; rewrite <- IH; reflexivity.
Qed.

End LineFacts.

(** ** What one loop iteration writes *)

Section OutputShape.

Variable options : FormattingOptions.

Lemma createIndent_allWs (level : Z) : allWs (createIndent level options).
Proof.
  unfold createIndent. apply Forall_forall. intros c Hc.
  apply repeat_spec in Hc. subst c. destruct (insertSpaces options); reflexivity.
Qed.

Lemma createIndent_noNewline (level : Z) :
  noNewline (createIndent level options).
Proof.
  unfold createIndent. intros Hc. apply repeat_spec in Hc.
  destruct (insertSpaces options); discriminate Hc.
Qed.

(** The pushed string is an indentation followed by the trimmed line. *)
Lemma formatLine_shape (st : FormatterState) (raw : jsstring) :
  exists ws,
    allWs ws /\ noNewline ws
    /\ snd (formatLine options st raw) = ws ++ trim raw.
Proof.
  unfold formatLine.
  destruct (trim raw) as [|c r] eqn:E; simpl isEmpty; cbv iota.
  - exists []. repeat split; [constructor | intros []].
  - destruct (startsWithSemicolon (c :: r)).
    + eexists. repeat split;
        [apply createIndent_allWs | apply createIndent_noNewline].
    + destruct (indentStep st _) as [lineIndent st']. simpl.
      eexists. repeat split;
        [apply createIndent_allWs | apply createIndent_noNewline].
Qed.

Lemma formatLine_trim (st : FormatterState) (raw : jsstring) :
  trim (snd (formatLine options st raw)) = trim raw.
Proof.
  destruct (formatLine_shape st raw) as [ws [Hws [_ He]]].
  rewrite He. apply trim_indent. exact Hws.
Qed.

Lemma formatLine_code (st : FormatterState) (raw : jsstring) :
  trim (stripStringsAndComments (snd (formatLine options st raw)))
  = trim (stripStringsAndComments raw).
Proof.
  destruct (formatLine_shape st raw) as [ws [Hws [_ He]]].
  rewrite He. apply code_of_reindented. exact Hws.
Qed.

Lemma formatLine_noNewline (st : FormatterState) (raw : jsstring) :
  noNewline raw -> noNewline (snd (formatLine options st raw)).
Proof.
  intros Hn. destruct (formatLine_shape st raw) as [ws [_ [Hw He]]].
  rewrite He. intros H. apply in_app_or in H. destruct H as [H|H].
  - exact (Hw H).
  - apply Hn. apply trim_incl. exact H.
Qed.

(** The iteration reads a line only through its trimmed text and its
    sanitized, trimmed code. *)
Lemma formatLine_ext (st : FormatterState) (r1 r2 : jsstring) :
  trim r1 = trim r2 ->
  trim (stripStringsAndComments r1) = trim (stripStringsAndComments r2) ->
  formatLine options st r1 = formatLine options st r2.
Proof. intros Ht Hc. unfold formatLine. rewrite Ht, Hc. reflexivity. Qed.

Lemma formatLine_idem (st : FormatterState) (raw : jsstring) :
  formatLine options st (snd (formatLine options st raw))
  = formatLine options st raw.
Proof.
  apply formatLine_ext; [apply formatLine_trim | apply formatLine_code].
Qed.

Lemma formatLines_length (lines : list jsstring) :
  forall st, length (fst (formatLines options st lines)) = length lines.
Proof.
  induction lines as [|raw rest IH]; intros st; simpl; [reflexivity|].
  destruct (formatLine options st raw) as [st' o].
  specialize (IH st'). destruct (formatLines options st' rest) as [out fin].
  simpl in *. f_equal. exact IH.
Qed.

Lemma formatLines_noNewline (lines : list jsstring) :
  Forall noNewline lines ->
  forall st, Forall noNewline (fst (formatLines options st lines)).
Proof.
  induction 1 as [|raw rest Hr _ IH]; intros st; simpl; [constructor|].
  pose proof (formatLine_noNewline st raw Hr) as Ho.
  destruct (formatLine options st raw) as [st' o].
  specialize (IH st'). destruct (formatLines options st' rest) as [out fin].
  simpl in *. constructor; assumption.
Qed.

Lemma formatLines_idem (lines : list jsstring) :
  forall st,
    formatLines options st (fst (formatLines options st lines))
    = formatLines options st lines.
Proof.
  induction lines as [|raw rest IH]; intros st; simpl; [reflexivity|].
  pose proof (formatLine_idem st raw) as Hi.
  destruct (formatLine options st raw) as [st' o] eqn:E.
  specialize (IH st'). destruct (formatLines options st' rest) as [out fin].
  simpl in *. rewrite Hi, IH. reflexivity.
Qed.

Lemma formatLines_nth_trim (lines : list jsstring) :
  forall st i,
    trim (nth i (fst (formatLines options st lines)) [])
    = trim (nth i lines []).
Proof.
  induction lines as [|raw rest IH]; intros st i; simpl.
  - destruct i; reflexivity.
  - pose proof (formatLine_trim st raw) as Ht.
    destruct (formatLine options st raw) as [st' o].
    specialize (IH st'). destruct (formatLines options st' rest) as [out fin].
    simpl in *. destruct i; [exact Ht | apply IH].
Qed.

(** The text returned is read back line by line as the array [out]. *)
Lemma split_formatPureBasicCode (text : jsstring) (init : option FormatterState) :
  split (formatPureBasicCode text options init)
  = fst (formatLines options
           (match init with Some s => s | None => startState end)
           (split text)).
Proof.
  unfold formatPureBasicCode. apply split_join.
  - intros H. apply (f_equal (@length _)) in H.
    rewrite formatLines_length in H. simpl in H.
    apply length_zero_iff_nil in H. exact (split_not_nil text H).
  - apply formatLines_noNewline. apply split_noNewline.
Qed.

End OutputShape.

(** ** Idempotence and content preservation *)

(** C4: formatting the formatter's own output changes nothing, for every
    text and every option value; on a document that holds such an output
    the handler answers with no edit. *)
Theorem C4_format_idempotent :
  forall (text : jsstring) (options : FormattingOptions),
    formatPureBasicCode (formatPureBasicCode text options None) options None
    = formatPureBasicCode text options None
    /\ forall document : TextDocument,
         getText document = formatPureBasicCode text options None ->
         handleDocumentFormatting options document = [].
Proof.
  intros text options.
  assert (H : formatPureBasicCode (formatPureBasicCode text options None) options None
              = formatPureBasicCode text options None).
  { unfold formatPureBasicCode at 1.
    rewrite split_formatPureBasicCode, formatLines_idem. reflexivity. }
  split; [exact H|].
  intros document Hdoc.
  unfold handleDocumentFormatting. rewrite Hdoc, H.
  destruct (list_eq_dec N.eq_dec _ _) as [_|Hne]; [reflexivity|].
  exfalso. apply Hne. reflexivity.
Qed.

Lemma C4_format_idempotent_witness :
  handleDocumentFormatting DEFAULT_OPTIONS
    (lineDocument (formatPureBasicCode (js "If a" ++ ch_newline :: js "b")
                     DEFAULT_OPTIONS None))
  = [].
Proof.
  apply (proj2 (C4_format_idempotent (js "If a" ++ ch_newline :: js "b")
                  DEFAULT_OPTIONS)).
  reflexivity.
Defined.

Lemma formatLines_nth_shape (options : FormattingOptions) (lines : list jsstring) :
  forall st i, exists ws,
    allWs ws /\ nth i (fst (formatLines options st lines)) [] = ws ++ trim (nth i lines []).
Proof.
  induction lines as [|raw rest IH]; intros st i; simpl.
  - exists []. split; [constructor|]. destruct i; reflexivity.
  - destruct (formatLine_shape options st raw) as [ws [Hws [_ He]]].
    destruct (formatLine options st raw) as [st' o].
    specialize (IH st'). destruct (formatLines options st' rest) as [out fin].
    simpl in *. destruct i as [|i]; [|apply IH].
    exists ws. split; assumption.
Qed.

(** C6, amended: the formatted text has as many lines as the input, and
    line by line the trimmed output equals the trimmed input.  An input
    line is its trimmed text between leading and trailing whitespace, and
    the output line is that same trimmed text behind an indentation: only
    leading and trailing whitespace is changed, never what lies between. *)
Theorem C6_content_preserved :
  forall (text : jsstring) (options : FormattingOptions),
    let inLines := split text in
    let outLines := split (formatPureBasicCode text options None) in
    length outLines = length inLines
    /\ forall i,
         trim (nth i outLines []) = trim (nth i inLines [])
         /\ (exists indent,
                allWs indent
                /\ nth i outLines [] = indent ++ trim (nth i inLines []))
         /\ (exists lead trail,
                allWs lead /\ allWs trail
                /\ nth i inLines [] = lead ++ trim (nth i inLines []) ++ trail).
Proof.
  intros text options. cbv zeta.
  rewrite split_formatPureBasicCode. split.
  - apply formatLines_length.
  - intros i. split; [|split].
    + apply formatLines_nth_trim.
    + apply formatLines_nth_shape.
    + apply trim_split.
Qed.

(** C6 as stated fails on a line with trailing whitespace: the line [x]
    followed by two spaces comes out as [x], so more than the leading
    whitespace has changed. *)
Lemma C6_counterexample :
  split (js "x  ") = [js "x  "]
  /\ split (formatPureBasicCode (js "x  ") DEFAULT_OPTIONS None) = [js "x"]
  /\ trimStart (js "x") <> trimStart (js "x  ").
Proof.
  split; [reflexivity|]. split; [reflexivity|].
  vm_compute. discriminate.
Qed.

(** ** Keyword tables *)

Section KeywordFacts.

Lemma ciMatch_word (p c : char) :
  isWordChar p = true -> ciMatch p c = true -> isWordChar c = true.
Proof.
  unfold ciMatch, asciiUpper. intros Hp Hm. apply N.eqb_eq in Hm.
  unfold isWordChar in *.
  rewrite !orb_true_iff, !andb_true_iff, !N.leb_le, !N.eqb_eq in *.
  destruct ((97 <=? p) && (p <=? 122))%N eqn:Ep;
    [apply andb_true_iff in Ep | apply andb_false_iff in Ep];
    (destruct ((97 <=? c) && (c <=? 122))%N eqn:Ec;
     [apply andb_true_iff in Ec | apply andb_false_iff in Ec]);
    rewrite ?N.leb_le, ?N.leb_gt in Ep;
    rewrite ?N.leb_le, ?N.leb_gt in Ec;
    lia.
Qed.

Lemma ciMatch_trans_sym (p1 p2 c : char) :
  ciMatch p1 c = true -> ciMatch p2 c = true -> ciMatch p1 p2 = true.
Proof.
  unfold ciMatch. intros H1 H2.
  apply N.eqb_eq in H1, H2. apply N.eqb_eq. congruence.
Qed.

(** At most one keyword (up to case) starts a given string as a whole
    word. *)
Lemma startsWithWord_unique (k1 : jsstring) :
  forall k2 s,
    forallb isWordChar k1 = true -> forallb isWordChar k2 = true ->
    startsWithWord k1 s = true -> startsWithWord k2 s = true ->
    keywordEq k1 k2 = true.
Proof.
  unfold startsWithWord.
  induction k1 as [|p1 k1 IH]; intros [|p2 k2] s W1 W2 H1 H2;
    cbn [matchKeyword forallb boundaryAfter keywordEq] in *.
  - reflexivity.
  - destruct s as [|c s]; [discriminate|].
    destruct (ciMatch p2 c) eqn:M; [|discriminate].
    apply andb_true_iff in W2. destruct W2 as [Wp _].
    cbn [boundaryAfter] in H1.
    rewrite (ciMatch_word _ _ Wp M) in H1. discriminate.
  - destruct s as [|c s]; [discriminate|].
    destruct (ciMatch p1 c) eqn:M; [|discriminate].
    apply andb_true_iff in W1. destruct W1 as [Wp _].
    cbn [boundaryAfter] in H2.
    rewrite (ciMatch_word _ _ Wp M) in H2. discriminate.
  - destruct s as [|c s]; [discriminate|].
    destruct (ciMatch p1 c) eqn:M1; [|discriminate].
    destruct (ciMatch p2 c) eqn:M2; [|discriminate].
    apply andb_true_iff in W1, W2. destruct W1 as [_ W1], W2 as [_ W2].
    rewrite (ciMatch_trans_sym _ _ _ M1 M2). simpl.
    exact (IH k2 s W1 W2 H1 H2).
Qed.

Lemma startsWithAny_disjoint (t1 t2 : list jsstring) (s : jsstring) :
  wordTable t1 = true -> wordTable t2 = true ->
  disjointTables t1 t2 = true ->
  startsWithAny t1 s = true -> startsWithAny t2 s = false.
Proof.
  unfold wordTable, disjointTables, startsWithAny.
  intros W1 W2 D H1.
  apply existsb_exists in H1. destruct H1 as [k1 [In1 S1]].
  destruct (existsb _ t2) eqn:E2; [|reflexivity].
  apply existsb_exists in E2. destruct E2 as [k2 [In2 S2]].
  rewrite forallb_forall in W1, W2, D.
  pose proof (startsWithWord_unique k1 k2 s (W1 _ In1) (W2 _ In2) S1 S2) as Heq.
  specialize (D _ In1). rewrite forallb_forall in D.
  specialize (D _ In2). rewrite Heq in D. discriminate.
Qed.

End KeywordFacts.

(** ** The line classes of the formatter exclude one another *)

Section ClassifierFacts.

Lemma startsWithWord_any (kw s : jsstring) :
  startsWithWord kw s = startsWithAny [kw] s.
Proof. unfold startsWithAny. simpl. rewrite orb_false_r. reflexivity. Qed.

Ltac other_table t :=
  rewrite ?startsWithWord_any;
  match goal with
  | H : startsWithAny ?t1 ?s = true |- startsWithAny t ?s = false =>
      apply (startsWithAny_disjoint t1 t s); [reflexivity .. | exact H]
  end.

Variable code : jsstring.

Lemma isMiddle_exclusive :
  Format.isMiddle code = true ->
  Format.isEndSelect code = false /\ Format.isSelect code = false
  /\ Format.isCase code = false /\ Format.isClosing code = false
  /\ Format.isOpening code = false.
Proof.
  unfold Format.isMiddle, Format.isEndSelect, Format.isSelect, Format.isCase,
    Format.isClosing, Format.isOpening.
  intros H. repeat split.
  - other_table [js "EndSelect"].
  - other_table [js "Select"].
  - other_table [js "Case"; js "Default"].
  - other_table Format.closingWords.
  - other_table Format.openingWords.
Qed.

Lemma isCase_exclusive :
  Format.isCase code = true ->
  Format.isEndSelect code = false /\ Format.isSelect code = false
  /\ Format.isMiddle code = false /\ Format.isClosing code = false
  /\ startsWithWord (js "If") code = false.
Proof.
  unfold Format.isMiddle, Format.isEndSelect, Format.isSelect, Format.isCase,
    Format.isClosing.
  intros H. repeat split.
  - other_table [js "EndSelect"].
  - other_table [js "Select"].
  - other_table Format.middleWords.
  - other_table Format.closingWords.
  - other_table [js "If"].
Qed.

Lemma isClosing_exclusive :
  Format.isClosing code = true ->
  Format.isEndSelect code = false /\ Format.isSelect code = false
  /\ Format.isCase code = false /\ Format.isMiddle code = false
  /\ Format.isOpening code = false.
Proof.
  unfold Format.isMiddle, Format.isEndSelect, Format.isSelect, Format.isCase,
    Format.isClosing, Format.isOpening.
  intros H. repeat split.
  - other_table [js "EndSelect"].
  - other_table [js "Select"].
  - other_table [js "Case"; js "Default"].
  - other_table Format.middleWords.
  - other_table Format.openingWords.
Qed.

Lemma isEndSelect_exclusive :
  Format.isEndSelect code = true ->
  Format.isSelect code = false /\ Format.isCase code = false
  /\ Format.isMiddle code = false /\ Format.isClosing code = false
  /\ Format.isOpening code = false.
Proof.
  unfold Format.isMiddle, Format.isEndSelect, Format.isSelect, Format.isCase,
    Format.isClosing, Format.isOpening.
  rewrite (startsWithWord_any (js "EndSelect")).
  intros H. repeat split.
  - other_table [js "Select"].
  - other_table [js "Case"; js "Default"].
  - other_table Format.middleWords.
  - other_table Format.closingWords.
  - other_table Format.openingWords.
Qed.

(** A line that holds code is neither blank nor a comment line. *)
Lemma code_line_not_blank (raw : jsstring) :
  trim (stripStringsAndComments raw) <> [] ->
  isEmpty (trim raw) = false /\ startsWithSemicolon (trim raw) = false.
Proof.
  intros Hc. split.
  - destruct (trim raw) eqn:E; [|reflexivity].
    exfalso. apply Hc. apply code_of_blank. exact E.
  - destruct (startsWithSemicolon (trim raw)) eqn:E; [|reflexivity].
    exfalso. apply Hc. apply code_of_comment. exact E.
Qed.

End ClassifierFacts.

(** ** Non-negative indentation *)

Section Invariant.

Lemma indentStep_nonNegative (st : FormatterState) (code : jsstring) :
  nonNegative st ->
  0 <= fst (indentStep st code) /\ nonNegative (snd (indentStep st code)).
Proof.
  destruct st as [lvl sel base act]. unfold nonNegative, indentStep, setIndentLevel.
  cbn [indentLevel inSelect selectBaseIndent caseActive].
  generalize (startsWithWord (js "If") code && containsWord (js "EndIf") code).
  generalize (Format.hasInlineNetZero code) (Format.isEndSelect code)
    (Format.isSelect code) (Format.isCase code) (Format.isClosing code)
    (Format.isMiddle code) (Format.isOpening code).
  intros inl es se ca cl mi op inlIf [Hl Hb].
  destruct inl, es, sel, se, ca, cl, mi, op, inlIf, act; cbn; lia.
Qed.

Lemma formatLine_nonNegative (options : FormattingOptions)
      (st : FormatterState) (raw : jsstring) :
  nonNegative st -> nonNegative (fst (formatLine options st raw)).
Proof.
  intros H. unfold formatLine.
  destruct (isEmpty (trim raw)); [exact H|].
  destruct (startsWithSemicolon (trim raw)); [exact H|].
  pose proof (indentStep_nonNegative st (trim (stripStringsAndComments raw)) H) as [_ Hn].
  destruct (indentStep st _) as [l st']. exact Hn.
Qed.

Lemma formatLines_nonNegative (options : FormattingOptions)
      (lines : list jsstring) :
  forall st, nonNegative st ->
             nonNegative (snd (formatLines options st lines)).
Proof.
  induction lines as [|raw rest IH]; intros st H; simpl; [exact H|].
  pose proof (formatLine_nonNegative options st raw H) as Hn.
  destruct (formatLine options st raw) as [st' o].
  specialize (IH st' Hn). destruct (formatLines options st' rest) as [out fin].
  exact IH.
Qed.

Lemma indentStep_pinned (st : FormatterState) (code : jsstring) :
  pinned st -> pinned (snd (indentStep st code)).
Proof.
  destruct st as [lvl sel base act]. unfold pinned, indentStep, setIndentLevel.
  cbn [indentLevel inSelect selectBaseIndent caseActive].
  generalize (startsWithWord (js "If") code && containsWord (js "EndIf") code).
  generalize (Format.hasInlineNetZero code) (Format.isEndSelect code)
    (Format.isSelect code) (Format.isCase code) (Format.isClosing code)
    (Format.isMiddle code) (Format.isOpening code).
  intros inl es se ca cl mi op inlIf Hp.
  destruct inl, es, sel, se, ca, cl, mi, op, inlIf, act; cbn in *;
    intros; try discriminate; try lia.
Qed.

Lemma formatLines_pinned (options : FormattingOptions)
      (lines : list jsstring) :
  forall st, pinned st -> pinned (snd (formatLines options st lines)).
Proof.
  induction lines as [|raw rest IH]; intros st H; simpl; [exact H|].
  assert (Hn : pinned (fst (formatLine options st raw))).
  { unfold formatLine.
    destruct (isEmpty (trim raw)); [exact H|].
    destruct (startsWithSemicolon (trim raw)); [exact H|].
    pose proof (indentStep_pinned st (trim (stripStringsAndComments raw)) H) as Hp.
    destruct (indentStep st _) as [l st']. exact Hp. }
  destruct (formatLine options st raw) as [st' o].
  specialize (IH st' Hn). destruct (formatLines options st' rest) as [out fin].
  exact IH.
Qed.

End Invariant.

(** C5: whatever the text, after any number of its lines the running
    [indentLevel] is at least 0, the next line is rendered at a level that
    is at least 0 even before the final [Math.max(0, _)], and a closing
    keyword met at level 0 outside a Select leaves the level at 0.  The
    formatter is a total function: no input makes it fail. *)
Theorem C5_indentation_never_negative :
  forall (text : jsstring) (options : FormattingOptions) (n : nat),
    let st := formatterStateAfter options (firstn n (split text)) in
    0 <= indentLevel st
    /\ (forall code,
           0 <= fst (indentStep st code)
           /\ 0 <= indentLevel (snd (indentStep st code)))
    /\ (forall code,
           Format.hasInlineNetZero code = false ->
           Format.isClosing code = true \/ Format.isEndSelect code = true ->
           indentLevel st = 0 -> inSelect st = false ->
           indentStep st code = (0, st)).
Proof.
  intros text options n st.
  assert (Hst : nonNegative st).
  { apply formatLines_nonNegative. split; simpl; lia. }
  split; [exact (proj1 Hst)|]. split.
  - intros code.
    destruct (indentStep_nonNegative st code Hst) as [H1 [H2 _]].
    split; assumption.
  - intros code Hinl Hcl Hlvl Hsel. clearbody st.
    destruct st as [lvl sel base act]. simpl in Hlvl, Hsel. subst lvl sel.
    unfold indentStep, setIndentLevel.
    cbn [indentLevel inSelect selectBaseIndent caseActive].
    rewrite Hinl. destruct Hcl as [Hcl|Hes].
    + destruct (isClosing_exclusive code Hcl) as [E1 [E2 [E3 [E4 E5]]]].
      rewrite Hcl, E1, E2, E3, E4, E5.
      destruct (startsWithWord (js "If") code && containsWord (js "EndIf") code);
        reflexivity.
    + destruct (isEndSelect_exclusive code Hes) as [E1 [E2 [E3 [E4 E5]]]].
      rewrite Hes, E1, E2, E3, E5.
      destruct (startsWithWord (js "If") code && containsWord (js "EndIf") code);
        reflexivity.
Qed.

Lemma C5_indentation_never_negative_witness :
  indentStep (formatterStateAfter DEFAULT_OPTIONS (firstn 1 (split (js "EndIf"))))
             (js "EndIf")
  = (0, formatterStateAfter DEFAULT_OPTIONS (firstn 1 (split (js "EndIf")))).
Proof.
  apply (proj2 (proj2 (C5_indentation_never_negative (js "EndIf") DEFAULT_OPTIONS 1)));
    [reflexivity | left; reflexivity | reflexivity | reflexivity].
Defined.

(** ** Single-line blocks *)

(** C7: a line whose code holds an opening keyword together with its
    closing keyword is rendered at the current [indentLevel] and leaves all
    four state fields as they were; the lines after it are formatted as if
    it were not there. *)
Theorem C7_inline_net_zero_frame :
  forall (options : FormattingOptions) (st : FormatterState)
         (raw : jsstring) (rest : list jsstring),
    Format.hasInlineNetZero (trim (stripStringsAndComments raw)) = true ->
    0 <= indentLevel st ->
    formatLine options st raw
    = (st, createIndent (indentLevel st) options ++ trim raw)
    /\ formatLines options st (raw :: rest)
       = ((createIndent (indentLevel st) options ++ trim raw)
            :: fst (formatLines options st rest),
          snd (formatLines options st rest)).
Proof.
  intros options st raw rest Hinl Hlvl.
  assert (Hline : formatLine options st raw
                  = (st, createIndent (indentLevel st) options ++ trim raw)).
  { assert (Hcode : trim (stripStringsAndComments raw) <> []).
    { intros E. rewrite E in Hinl. discriminate Hinl. }
    destruct (code_line_not_blank raw Hcode) as [Hb Hc].
    unfold formatLine. rewrite Hb, Hc.
    unfold indentStep. rewrite Hinl. cbn.
    rewrite Z.max_r by exact Hlvl. reflexivity. }
  split; [exact Hline|].
  cbn [formatLines]. rewrite Hline.
  destruct (formatLines options st rest) as [out fin]. reflexivity.
Qed.

Lemma C7_inline_net_zero_frame_witness :
  formatLine DEFAULT_OPTIONS
    {| indentLevel := 1; inSelect := false; selectBaseIndent := 0;
       caseActive := false |}
    (js "If a : b() : EndIf")
  = ({| indentLevel := 1; inSelect := false; selectBaseIndent := 0;
        caseActive := false |},
     js "    If a : b() : EndIf").
Proof.
  apply (proj1 (C7_inline_net_zero_frame DEFAULT_OPTIONS
                  {| indentLevel := 1; inSelect := false; selectBaseIndent := 0;
                     caseActive := false |}
                  (js "If a : b() : EndIf") [] eq_refl ltac:(simpl; lia))).
Defined.

(** ** Select, Case and EndSelect *)

(** C8: inside a Select a Case or Default line is rendered at
    [selectBaseIndent + 1]; afterwards [caseActive] is set and
    [indentLevel] is [selectBaseIndent + 2].  On Scenario C the Select and
    EndSelect lines are at level 0, the labels at level 1 and the bodies at
    level 2. *)
Theorem C8_case_label_levels :
  (forall (options : FormattingOptions) (st : FormatterState) (raw : jsstring),
      inSelect st = true ->
      Format.isCase (trim (stripStringsAndComments raw)) = true ->
      Format.hasInlineNetZero (trim (stripStringsAndComments raw)) = false ->
      0 <= selectBaseIndent st ->
      formatLine options st raw
      = ({| indentLevel := selectBaseIndent st + 2; inSelect := true;
            selectBaseIndent := selectBaseIndent st; caseActive := true |},
         createIndent (selectBaseIndent st + 1) options ++ trim raw))
  /\ (forall options : FormattingOptions,
         formatLines options startState scenarioC
         = ([createIndent 0 options ++ js "Select a";
             createIndent 1 options ++ js "Case 1";
             createIndent 2 options ++ js "foo()";
             createIndent 1 options ++ js "Default";
             createIndent 2 options ++ js "bar()";
             createIndent 0 options ++ js "EndSelect"],
            startState)).
Proof.
  split.
  - intros options st raw Hsel Hcase Hinl Hbase.
    assert (Hcode : trim (stripStringsAndComments raw) <> []).
    { intros E. rewrite E in Hcase. discriminate Hcase. }
    destruct (code_line_not_blank raw Hcode) as [Hb Hc].
    unfold formatLine. rewrite Hb, Hc.
    destruct (isCase_exclusive _ Hcase) as [E1 [E2 [E3 [E4 E5]]]].
    destruct st as [lvl sel base act]. simpl in Hsel, Hbase. subst sel.
    unfold indentStep, setIndentLevel.
    cbn [indentLevel inSelect selectBaseIndent caseActive].
    rewrite Hinl, Hcase, E1, E2, E3, E5. cbn.
    rewrite Z.max_r by lia. reflexivity.
  - intros options. vm_compute. reflexivity.
Qed.

Lemma C8_case_label_levels_witness :
  formatLine DEFAULT_OPTIONS
    {| indentLevel := 1; inSelect := true; selectBaseIndent := 0;
       caseActive := false |}
    (js "Case 1")
  = ({| indentLevel := 2; inSelect := true; selectBaseIndent := 0;
        caseActive := true |},
     js "    Case 1").
Proof.
  apply (proj1 C8_case_label_levels DEFAULT_OPTIONS
           {| indentLevel := 1; inSelect := true; selectBaseIndent := 0;
              caseActive := false |}
           (js "Case 1") eq_refl eq_refl eq_refl ltac:(simpl; lia)).
Defined.

(** ** Else and its relatives *)

(** What an Else, ElseIf, CompilerElse or CompilerElseIf line does in a
    state of a run (non-negative and pinned): it is rendered at
    [max(0, indentLevel - 1)] and changes no field but [indentLevel]; from
    [indentLevel >= 1] the level is afterwards what it was before the line,
    from [indentLevel = 0] the code leaves it at 1. *)
Lemma else_line_step :
  forall (st : FormatterState) (code : jsstring),
    Format.isMiddle code = true ->
    Format.hasInlineNetZero code = false ->
    nonNegative st -> pinned st ->
    fst (indentStep st code) = Z.max 0 (indentLevel st - 1)
    /\ inSelect (snd (indentStep st code)) = inSelect st
    /\ selectBaseIndent (snd (indentStep st code)) = selectBaseIndent st
    /\ caseActive (snd (indentStep st code)) = caseActive st
    /\ (1 <= indentLevel st ->
        indentLevel (snd (indentStep st code)) = indentLevel st)
    /\ (indentLevel st = 0 ->
        indentLevel (snd (indentStep st code)) = 1).
Proof.
  intros st code Hmid Hinl [Hl Hb] Hp.
  destruct (isMiddle_exclusive code Hmid) as [E1 [E2 [E3 [E4 E5]]]].
  destruct st as [lvl sel base act]. unfold pinned in Hp.
  unfold indentStep, setIndentLevel.
  cbn [indentLevel inSelect selectBaseIndent caseActive] in *.
  rewrite Hinl, Hmid, E1, E2, E3, E4, E5.
  destruct (startsWithWord (js "If") code && containsWord (js "EndIf") code);
    destruct sel, act; cbn;
    try specialize (Hp eq_refl eq_refl);
    repeat split; intros; lia.
Qed.

Lemma else_line_step_example :
  indentLevel (snd (indentStep
                      {| indentLevel := 1; inSelect := false;
                         selectBaseIndent := 0; caseActive := false |}
                      (js "Else")))
  = 1.
Proof.
  refine (proj1 (proj2 (proj2 (proj2 (proj2
            (else_line_step
               {| indentLevel := 1; inSelect := false; selectBaseIndent := 0;
                  caseActive := false |}
               (js "Else") eq_refl eq_refl _ _))))) _).
  - split; simpl; lia.
  - intros H; discriminate H.
  - simpl; lia.
Defined.

(** C3: an Else line met at [indentLevel = 0] is a block-transfer line
    rendered at level 0, yet it leaves [indentLevel] at 1 and the next line
    one level deeper, not at the level before the Else; the reconstructor
    leaves the level at 0 on the same line. *)
Theorem C3_else_at_level_zero_not_net_zero :
  Format.isMiddle (js "Else") = true
  /\ Format.hasInlineNetZero (js "Else") = false
  /\ indentStep startState (js "Else") = (0, setIndentLevel 1 startState)
  /\ indentLevel (snd (indentStep startState (js "Else")))
     <> indentLevel startState
  /\ formatLines DEFAULT_OPTIONS startState [js "Else"; js "x"]
     = ([js "Else"; js "    x"], setIndentLevel 1 startState)
  /\ indentLevel (computeInitialFormatterState [js "Else"]) = 0.
Proof.
  split; [reflexivity|]. split; [reflexivity|]. split; [reflexivity|].
  split; [vm_compute; discriminate|]. split; reflexivity.
Qed.

(** ** Closing lines without an opener *)

(** C9, amended: on a line that is not a single-line (inline net-zero)
    block, an EndSelect met outside a Select, or a block-closing keyword,
    is rendered at [max(0, indentLevel - 1)]; [indentLevel] becomes that
    value, except inside a Select whose first Case is still to come, where
    it becomes the larger of that value and [selectBaseIndent + 1].  No
    other field changes and nothing fails. *)
Theorem C9_orphan_closer :
  forall (st : FormatterState) (code : jsstring),
    Format.hasInlineNetZero code = false ->
    (Format.isEndSelect code = true /\ inSelect st = false)
    \/ Format.isClosing code = true ->
    let emitted := Z.max 0 (indentLevel st - 1) in
    indentStep st code
    = (emitted,
       setIndentLevel
         (if inSelect st && negb (caseActive st)
          then Z.max emitted (selectBaseIndent st + 1) else emitted)
         st).
Proof.
  intros st code Hinl Hcl emitted. subst emitted.
  destruct st as [lvl sel base act].
  unfold indentStep, setIndentLevel.
  cbn [indentLevel inSelect selectBaseIndent caseActive] in *.
  rewrite Hinl. destruct Hcl as [[Hes Hsel]|Hcl].
  - subst sel.
    destruct (isEndSelect_exclusive code Hes) as [E1 [E2 [E3 [E4 E5]]]].
    rewrite Hes, E1, E2, E3, E5.
    destruct (startsWithWord (js "If") code && containsWord (js "EndIf") code);
      reflexivity.
  - destruct (isClosing_exclusive code Hcl) as [E1 [E2 [E3 [E4 E5]]]].
    rewrite Hcl, E1, E2, E3, E4, E5.
    destruct (startsWithWord (js "If") code && containsWord (js "EndIf") code);
      destruct sel, act; reflexivity.
Qed.

Lemma C9_orphan_closer_witness :
  indentStep {| indentLevel := 2; inSelect := false; selectBaseIndent := 0;
                caseActive := false |}
             (js "EndIf")
  = (1, {| indentLevel := 1; inSelect := false; selectBaseIndent := 0;
           caseActive := false |}).
Proof.
  apply (C9_orphan_closer
           {| indentLevel := 2; inSelect := false; selectBaseIndent := 0;
              caseActive := false |}
           (js "EndIf") eq_refl (or_intror eq_refl)).
Defined.

(** C9 as stated fails right after a Select line: a stray EndIf there is
    rendered at level 0 but [indentLevel] stays at 1. *)
Lemma C9_counterexample :
  let st := formatterStateAfter DEFAULT_OPTIONS [js "Select x"] in
  Format.isClosing (js "EndIf") = true
  /\ Format.hasInlineNetZero (js "EndIf") = false
  /\ fst (indentStep st (js "EndIf")) = Z.max 0 (indentLevel st - 1)
  /\ indentLevel (snd (indentStep st (js "EndIf")))
     <> Z.max 0 (indentLevel st - 1).
Proof.
  repeat split; try reflexivity. vm_compute. discriminate.
Qed.

(** A closing keyword that opens a single-line block with a later opener
    on its line dedents nothing: the line is rendered where it stands. *)
Lemma closer_on_inline_line_example :
  Format.isClosing (js "EndIf : If b") = true
  /\ Format.hasInlineNetZero (js "EndIf : If b") = true
  /\ indentStep {| indentLevel := 2; inSelect := false; selectBaseIndent := 0;
                   caseActive := false |}
                (js "EndIf : If b")
     = (2, {| indentLevel := 2; inSelect := false; selectBaseIndent := 0;
              caseActive := false |}).
Proof. repeat split; reflexivity. Qed.

(** ** Range formatting and the reconstructed state *)

Section RangeFormatting.

Variable options : FormattingOptions.

Lemma formatLines_app (a b : list jsstring) :
  forall st,
    formatLines options st (a ++ b)
    = (fst (formatLines options st a)
         ++ fst (formatLines options (snd (formatLines options st a)) b),
       snd (formatLines options (snd (formatLines options st a)) b)).
Proof.
  induction a as [|raw a IH]; intros st; simpl.
  - destruct (formatLines options st b); reflexivity.
  - destruct (formatLine options st raw) as [st' o].
    rewrite (IH st').
    destruct (formatLines options st' a) as [out fin]. reflexivity.
Qed.

Lemma slice_middle {A} (a b c : list A) (s e : nat) :
  length a = s -> length b = (e - s)%nat -> slice s e (a ++ b ++ c) = b.
Proof.
  intros Ha Hb. unfold slice.
  rewrite skipn_app, Ha, Nat.sub_diag. simpl skipn at 2.
  rewrite <- Ha, skipn_all. simpl app.
  rewrite firstn_app, Ha, <- Hb, Nat.sub_diag, firstn_all. simpl.
  apply app_nil_r.
Qed.

Lemma slice_split {A} (l : list A) (s e : nat) :
  l = slice 0 s l ++ slice s e l ++ skipn (e - s) (skipn s l).
Proof.
  unfold slice. rewrite Nat.sub_0_r. simpl skipn at 1.
  rewrite (firstn_skipn (e - s) (skipn s l)).
  symmetry. apply firstn_skipn.
Qed.

(** With the state the formatter itself has after the lines before the
    range, formatting the range gives the span of the full result. *)
Lemma range_matches_full_given_state (text : jsstring) (s e : nat) :
  (s <= e < length (split text))%nat ->
  formatPureBasicCode (join (slice s (S e) (split text))) options
    (Some (formatterStateAfter options (slice 0 s (split text))))
  = join (slice s (S e) (split (formatPureBasicCode text options None))).
Proof.
  intros [Hse He].
  set (lines := split text).
  pose proof (slice_split lines s (S e)) as Hl.
  set (pre := slice 0 s lines) in *.
  set (mid := slice s (S e) lines) in *.
  set (post := skipn (S e - s) (skipn s lines)) in *.
  assert (Hpre : length pre = s).
  { unfold pre, slice. rewrite Nat.sub_0_r. simpl skipn.
    apply firstn_length_le. unfold lines. lia. }
  assert (Hmid : length mid = (S e - s)%nat).
  { unfold mid, slice. apply firstn_length_le.
    rewrite length_skipn. unfold lines. lia. }
  assert (Hnl : Forall noNewline mid).
  { pose proof (split_noNewline text) as Hall. fold lines in Hall.
    rewrite Hl in Hall. apply Forall_app in Hall. destruct Hall as [_ Hall].
    apply Forall_app in Hall. exact (proj1 Hall). }
  assert (Hne : mid <> []).
  { intros E. rewrite E in Hmid. cbn [length] in Hmid. lia. }
  unfold formatPureBasicCode at 1.
  rewrite (split_join mid Hne Hnl).
  rewrite split_formatPureBasicCode. fold lines.
  rewrite Hl at 1. rewrite formatLines_app. cbn [fst].
  rewrite formatLines_app. cbn [fst].
  rewrite slice_middle; [reflexivity | |].
  - rewrite formatLines_length. exact Hpre.
  - rewrite formatLines_length. exact Hmid.
Qed.

End RangeFormatting.

(** C2: the reconstructor does not reach the formatter's state.  After the
    single line [Macro M] the formatter is at [indentLevel = 1], the
    reconstructor at 0: its keyword tables lack Macro, DataSection,
    CompilerIf and CompilerSelect and their closers. *)
Theorem C2_reconstructor_diverges :
  forall options : FormattingOptions,
    formatterStateAfter options [js "Macro M"]
    = {| indentLevel := 1; inSelect := false; selectBaseIndent := 0;
         caseActive := false |}
    /\ computeInitialFormatterState [js "Macro M"] = startState
    /\ computeInitialFormatterState [js "Macro M"]
       <> formatterStateAfter options [js "Macro M"].
Proof.
  intros options.
  assert (H1 : formatterStateAfter options [js "Macro M"]
               = {| indentLevel := 1; inSelect := false; selectBaseIndent := 0;
                    caseActive := false |}) by (vm_compute; reflexivity).
  assert (H2 : computeInitialFormatterState [js "Macro M"] = startState)
    by (vm_compute; reflexivity).
  split; [exact H1 | split; [exact H2 |]].
  rewrite H1, H2. discriminate.
Qed.

(** The two passes also part on keywords both know: an Else met at level 0
    leaves the formatter at level 1, and a Case line sets [caseActive] in
    the formatter only. *)
Lemma reconstructor_diverges_on_Else_and_Case :
  forall options : FormattingOptions,
    (indentLevel (formatterStateAfter options [js "Else"]) = 1
     /\ indentLevel (computeInitialFormatterState [js "Else"]) = 0)
    /\ (caseActive (formatterStateAfter options [js "Select a"; js "Case 1"]) = true
        /\ caseActive (computeInitialFormatterState [js "Select a"; js "Case 1"])
           = false).
Proof. intros options. repeat split; vm_compute; reflexivity. Qed.

(** C1: [macroDocument] is left unchanged by full formatting, yet range
    formatting of its second line strips the indentation of that line,
    where the full result keeps it.  This holds on every buffer that holds
    the document and returns its second line for the expanded range. *)
Theorem C1_range_differs_from_full :
  forall (document : TextDocument) (range : Range),
    getText document = macroDocument ->
    line (rangeStart range) = 1%nat ->
    getTextIn document (expandToFullLines document range) = js "    x" ->
    handleDocumentFormatting DEFAULT_OPTIONS document = []
    /\ join (slice 1 2 (split (formatPureBasicCode macroDocument DEFAULT_OPTIONS None)))
       = js "    x"
    /\ handleDocumentRangeFormatting DEFAULT_OPTIONS range document
       = [{| editRange := expandToFullLines document range; newText := js "x" |}].
Proof.
  intros document range Htext Hline Hrange.
  split; [|split].
  - unfold handleDocumentFormatting. rewrite Htext. vm_compute. reflexivity.
  - vm_compute. reflexivity.
  - unfold handleDocumentRangeFormatting. rewrite Hrange, Htext.
    cbn [expandToFullLines rangeStart line]. rewrite Hline.
    assert (E : formatPureBasicCode (js "    x") DEFAULT_OPTIONS
                  (Some (computeInitialFormatterState
                           (slice 0 1 (split macroDocument))))
                = js "x") by (vm_compute; reflexivity).
    rewrite E.
    destruct (list_eq_dec N.eq_dec (js "x") (js "    x")) as [Heq|_];
      [discriminate Heq | reflexivity].
Qed.

Lemma C1_range_differs_from_full_witness :
  handleDocumentRangeFormatting DEFAULT_OPTIONS (linesRange 1 1)
    (lineDocument macroDocument)
  = [{| editRange := expandToFullLines (lineDocument macroDocument) (linesRange 1 1);
        newText := js "x" |}].
Proof.
  apply (C1_range_differs_from_full (lineDocument macroDocument) (linesRange 1 1));
    reflexivity.
Defined.

(** ** States of a run *)

(** Every state the formatter reaches from the start of a document is
    non-negative and pinned. *)
Lemma formatterStateAfter_invariant (options : FormattingOptions)
      (lines : list jsstring) :
  nonNegative (formatterStateAfter options lines)
  /\ pinned (formatterStateAfter options lines).
Proof.
  unfold formatterStateAfter. split.
  - apply formatLines_nonNegative. split; simpl; lia.
  - apply formatLines_pinned. intros H. discriminate H.
Qed.

Lemma initialStep_invariant (st : FormatterState) (code : jsstring) :
  nonNegative st /\ pinned st ->
  nonNegative (initialStep st code) /\ pinned (initialStep st code).
Proof.
  destruct st as [lvl sel base act].
  unfold nonNegative, pinned, initialStep, setIndentLevel.
  cbn [indentLevel inSelect selectBaseIndent caseActive].
  generalize (Initial.hasInlineNetZero code) (Initial.isEndSelect code)
    (Initial.isSelect code) (Initial.isCase code) (Initial.isClosing code)
    (Initial.isOpening code).
  intros inl es se ca cl op [[Hl Hb] Hp].
  destruct inl, es, sel, se, ca, cl, op, act; cbn in *;
    repeat split; intros; try discriminate; try lia.
Qed.

(** So is every state the reconstructor returns. *)
Lemma computeInitialFormatterState_invariant (linesBefore : list jsstring) :
  nonNegative (computeInitialFormatterState linesBefore)
  /\ pinned (computeInitialFormatterState linesBefore).
Proof.
  unfold computeInitialFormatterState.
  assert (H0 : nonNegative startState /\ pinned startState).
  { split; [split; simpl; lia | intros H; discriminate H]. }
  revert H0. generalize startState.
  induction linesBefore as [|raw rest IH]; intros st H; simpl; [exact H|].
  apply IH. unfold initialLine.
  destruct (isEmpty (trim raw) || startsWithSemicolon (trim raw)); [exact H|].
  apply initialStep_invariant. exact H.
Qed.

(** * Further properties of the provider *)

(** ** More on the sanitizer *)

Lemma stripFrom_no_special (line : jsstring) :
  forall d q c,
    In c (stripFrom d q line) ->
    c <> ch_semicolon /\ c <> ch_dquote /\ c <> ch_squote.
Proof.
  induction line as [|x line IH]; intros d q c Hin; simpl in Hin; [destruct Hin|].
  destruct d, q; simpl in Hin;
    repeat match type of Hin with
           | In _ (if ?b then _ else _) => destruct b eqn:?
           end;
    try (destruct Hin; fail);
    try (apply IH in Hin; exact Hin).
  destruct Hin as [<-|Hin]; [|apply IH in Hin; exact Hin].
  repeat split; intros ->; discriminate.
Qed.

Lemma stripFrom_plain (line : jsstring) :
  ~ In ch_semicolon line -> ~ In ch_dquote line -> ~ In ch_squote line ->
  stripFrom false false line = line.
Proof.
  induction line as [|x line IH]; intros H1 H2 H3; [reflexivity|].
  simpl.
  assert (E1 : (x =? ch_semicolon)%N = false)
    by (apply N.eqb_neq; intros ->; apply H1; left; reflexivity).
  assert (E2 : (x =? ch_dquote)%N = false)
    by (apply N.eqb_neq; intros ->; apply H2; left; reflexivity).
  assert (E3 : (x =? ch_squote)%N = false)
    by (apply N.eqb_neq; intros ->; apply H3; left; reflexivity).
  rewrite E1, E2, E3. f_equal.
  apply IH; intros H; [apply H1 | apply H2 | apply H3]; right; exact H.
Qed.

(** X1: the sanitized text holds no semicolon and no quote of either
    kind, so sanitizing it again changes nothing. *)
Theorem strip_output_clean :
  forall line : jsstring,
    ~ In ch_semicolon (stripStringsAndComments line)
    /\ ~ In ch_dquote (stripStringsAndComments line)
    /\ ~ In ch_squote (stripStringsAndComments line)
    /\ stripStringsAndComments (stripStringsAndComments line)
       = stripStringsAndComments line.
Proof.
  intros line.
  assert (H : forall c, In c (stripStringsAndComments line) ->
                        c <> ch_semicolon /\ c <> ch_dquote /\ c <> ch_squote).
  { intros c. apply stripFrom_no_special. }
  assert (H1 : ~ In ch_semicolon (stripStringsAndComments line)).
  { intros Hin. destruct (H _ Hin) as [E _]. apply E. reflexivity. }
  assert (H2 : ~ In ch_dquote (stripStringsAndComments line)).
  { intros Hin. destruct (H _ Hin) as [_ [E _]]. apply E. reflexivity. }
  assert (H3 : ~ In ch_squote (stripStringsAndComments line)).
  { intros Hin. destruct (H _ Hin) as [_ [_ E]]. apply E. reflexivity. }
  repeat split; try assumption.
  apply stripFrom_plain; assumption.
Qed.

Lemma quoteState_open_dq (s : jsstring) :
  ~ In ch_dquote s -> quoteState true false s = Some (true, false).
Proof.
  induction s as [|c s IH]; intros Hn; [reflexivity|].
  simpl. assert (Hc : (c =? ch_dquote)%N = false).
  { apply N.eqb_neq. intros ->. apply Hn. left. reflexivity. }
  rewrite Hc. apply IH. intros H. apply Hn. right. exact H.
Qed.

Lemma quoteState_open_sq (s : jsstring) :
  ~ In ch_squote s -> quoteState false true s = Some (false, true).
Proof.
  induction s as [|c s IH]; intros Hn; [reflexivity|].
  simpl. assert (Hc : (c =? ch_squote)%N = false).
  { apply N.eqb_neq. intros ->. apply Hn. left. reflexivity. }
  rewrite Hc. apply IH. intros H. apply Hn. right. exact H.
Qed.

(** X2: a closed string literal is dropped whole, whatever it holds
    (semicolons, keywords, quotes of the other kind), and the text after it
    is scanned as code again. *)
Theorem strip_closed_literal :
  forall pre body post : jsstring,
    quoteState false false pre = Some (false, false) ->
    (~ In ch_dquote body ->
     stripStringsAndComments (pre ++ ch_dquote :: body ++ ch_dquote :: post)
     = stripStringsAndComments pre ++ stripStringsAndComments post)
    /\ (~ In ch_squote body ->
        stripStringsAndComments (pre ++ ch_squote :: body ++ ch_squote :: post)
        = stripStringsAndComments pre ++ stripStringsAndComments post).
Proof.
  intros pre body post Hst. unfold stripStringsAndComments. split; intros Hn.
  - rewrite (stripFrom_app _ _ _ _ _ _ Hst). f_equal. simpl.
    rewrite (stripFrom_app _ _ _ _ _ _ (quoteState_open_dq body Hn)).
    rewrite stripFrom_open_dq by exact Hn. reflexivity.
  - rewrite (stripFrom_app _ _ _ _ _ _ Hst). f_equal. simpl.
    rewrite (stripFrom_app _ _ _ _ _ _ (quoteState_open_sq body Hn)).
    rewrite stripFrom_open_sq by exact Hn. reflexivity.
Qed.

Lemma strip_closed_literal_witness :
  stripStringsAndComments
    (js "a = " ++ ch_dquote :: js "If ; 'x' EndIf" ++ ch_dquote :: js " + b")
  = js "a =  + b".
Proof.
  refine (proj1 (strip_closed_literal (js "a = ") (js "If ; 'x' EndIf") (js " + b")
                   eq_refl) _).
  vm_compute. intros H.
  repeat (destruct H as [H|H]; [discriminate H|]). exact H.
Defined.

(** ** Lines without code, and comments after code *)

Lemma formatLine_no_code (options : FormattingOptions) (st : FormatterState)
      (raw : jsstring) :
  isEmpty (trim raw) || startsWithSemicolon (trim raw) = true ->
  formatLine options st raw
  = (st, if isEmpty (trim raw) then []
         else createIndent (Z.max 0 (indentLevel st)) options ++ trim raw).
Proof.
  intros H. unfold formatLine.
  destruct (isEmpty (trim raw)); [reflexivity|].
  simpl in H. rewrite H. reflexivity.
Qed.

Lemma firstn_skipn_app_length {A} (a b : list A) :
  firstn (length a) (a ++ b) = a /\ skipn (length a) (a ++ b) = b.
Proof.
  split.
  - rewrite firstn_app, Nat.sub_diag, firstn_all. simpl. apply app_nil_r.
  - rewrite skipn_app, Nat.sub_diag, skipn_all. reflexivity.
Qed.

(** X3: a blank line and a line that starts with [;] leave the state of
    the formatter and of the reconstructor as it is; put anywhere into a
    text, such a line changes no other line of the result. *)
Theorem no_code_line_is_neutral :
  forall (options : FormattingOptions) (st : FormatterState)
         (before after : list jsstring) (raw : jsstring),
    isEmpty (trim raw) || startsWithSemicolon (trim raw) = true ->
    fst (formatLine options st raw) = st
    /\ initialLine st raw = st
    /\ snd (formatLines options st (before ++ raw :: after))
       = snd (formatLines options st (before ++ after))
    /\ fst (formatLines options st (before ++ raw :: after))
       = let out := fst (formatLines options st (before ++ after)) in
         firstn (length before) out
           ++ snd (formatLine options (snd (formatLines options st before)) raw)
           :: skipn (length before) out.
Proof.
  intros options st before after raw H.
  split; [rewrite (formatLine_no_code options st raw H); reflexivity|].
  split; [unfold initialLine; rewrite H; reflexivity|].
  rewrite !formatLines_app. cbn [fst snd formatLines].
  rewrite (formatLine_no_code options _ raw H).
  destruct (formatLines options (snd (formatLines options st before)) after)
    as [out2 fin] eqn:E.
  cbn [fst snd]. split; [reflexivity|].
  rewrite <- (formatLines_length options before st).
  destruct (firstn_skipn_app_length (fst (formatLines options st before)) out2)
    as [Hf Hs].
  rewrite Hf, Hs. reflexivity.
Qed.

Lemma no_code_line_is_neutral_witness :
  snd (formatLines DEFAULT_OPTIONS startState
         ([js "If a"] ++ js "  ; EndIf EndIf" :: [js "b"]))
  = snd (formatLines DEFAULT_OPTIONS startState ([js "If a"] ++ [js "b"])).
Proof.
  exact (proj1 (proj2 (proj2
           (no_code_line_is_neutral DEFAULT_OPTIONS startState
              [js "If a"] [js "b"] (js "  ; EndIf EndIf") eq_refl)))).
Defined.

Lemma trimStart_app_nonblank (s x : jsstring) :
  trimStart s <> [] -> trimStart (s ++ x) = trimStart s ++ x.
Proof.
  induction s as [|c s IH]; simpl; intros H; [congruence|].
  destruct (isWhiteSpace c); [apply IH; exact H | reflexivity].
Qed.

Lemma trim_app_head (s x r : jsstring) (c : char) :
  trim s = c :: r -> exists r', trim (s ++ x) = c :: r'.
Proof.
  intros H. pose proof (trim_head_not_ws _ _ _ H) as Hc.
  unfold trim in *.
  destruct (trimStart s) as [|d u] eqn:E; [discriminate H|].
  pose proof (trimStart_head _ _ _ E) as Hd.
  rewrite trimEnd_keeps_head in H by exact Hd. injection H as -> _.
  rewrite trimStart_app_nonblank by (rewrite E; discriminate).
  rewrite E. simpl app. rewrite trimEnd_keeps_head by exact Hd.
  eexists. reflexivity.
Qed.

(** X4: a comment added behind the code of a line, outside any string,
    changes neither the level the line is rendered at nor the state it
    leaves, whatever the comment holds. *)
Theorem trailing_comment_is_neutral :
  forall (options : FormattingOptions) (st : FormatterState)
         (raw comment : jsstring),
    trim (stripStringsAndComments raw) <> [] ->
    quoteState false false raw = Some (false, false) ->
    let code := trim (stripStringsAndComments raw) in
    formatLine options st raw
    = (snd (indentStep st code),
       createIndent (Z.max 0 (fst (indentStep st code))) options ++ trim raw)
    /\ formatLine options st (raw ++ ch_semicolon :: comment)
       = (snd (indentStep st code),
          createIndent (Z.max 0 (fst (indentStep st code))) options
            ++ trim (raw ++ ch_semicolon :: comment)).
Proof.
  intros options st raw comment Hcode Hq code.
  destruct (code_line_not_blank raw Hcode) as [Hb Hc].
  assert (Hstrip : stripStringsAndComments (raw ++ ch_semicolon :: comment)
                   = stripStringsAndComments raw).
  { unfold stripStringsAndComments.
    rewrite (stripFrom_app _ _ _ _ _ _ Hq). simpl. apply app_nil_r. }
  split.
  - unfold formatLine. rewrite Hb, Hc. fold code.
    destruct (indentStep st code). reflexivity.
  - unfold formatLine. rewrite Hstrip. fold code.
    destruct (trim raw) as [|c r] eqn:E; [discriminate Hb|].
    destruct (trim_app_head raw (ch_semicolon :: comment) r c E) as [r' E'].
    rewrite E'. cbn [isEmpty startsWithSemicolon] in Hc |- *. rewrite Hc.
    destruct (indentStep st code). reflexivity.
Qed.

Lemma trailing_comment_is_neutral_witness :
  fst (formatLine DEFAULT_OPTIONS startState (js "If a ; EndIf"))
  = snd (indentStep startState (js "If a")).
Proof.
  exact (f_equal fst
           (proj2 (trailing_comment_is_neutral DEFAULT_OPTIONS startState
                     (js "If a ") (js " EndIf")
                     ltac:(vm_compute; discriminate) eq_refl))).
Defined.

(** ** The indentation of the input does not matter *)

Lemma code_of_trimmed (raw : jsstring) :
  trim (stripStringsAndComments (trim raw)) = trim (stripStringsAndComments raw).
Proof. apply (code_of_reindented [] raw). constructor. Qed.

Lemma formatLines_trim_ext (options : FormattingOptions) (l1 : list jsstring) :
  forall l2 st,
    map trim l1 = map trim l2 ->
    formatLines options st l1 = formatLines options st l2.
Proof.
  induction l1 as [|r1 l1 IH]; intros [|r2 l2] st H; simpl in H;
    try discriminate; [reflexivity|].
  injection H as Hr Hl. simpl.
  assert (Hline : formatLine options st r1 = formatLine options st r2).
  { apply formatLine_ext; [exact Hr|].
    rewrite <- (code_of_trimmed r1), <- (code_of_trimmed r2), Hr. reflexivity. }
  rewrite Hline. destruct (formatLine options st r2) as [st' o].
  rewrite (IH l2 st' Hl). reflexivity.
Qed.

(** X5: the result depends on the input only through its trimmed lines:
    two texts whose lines agree after trimming are formatted to the same
    text, so the indentation a text comes with never shows in the
    result. *)
Theorem format_ignores_input_indentation :
  forall (t1 t2 : jsstring) (options : FormattingOptions)
         (initialState : option FormatterState),
    map trim (split t1) = map trim (split t2) ->
    formatPureBasicCode t1 options initialState
    = formatPureBasicCode t2 options initialState.
Proof.
  intros t1 t2 options initialState H. unfold formatPureBasicCode.
  rewrite (formatLines_trim_ext options _ _ _ H). reflexivity.
Qed.

Lemma format_ignores_input_indentation_witness :
  formatPureBasicCode (js "   If a") DEFAULT_OPTIONS None
  = formatPureBasicCode (js "If a  ") DEFAULT_OPTIONS None.
Proof.
  apply format_ignores_input_indentation. reflexivity.
Defined.

(** ** Blocks *)

Section BlockFacts.

Ltac not_in_table t :=
  rewrite ?startsWithWord_any;
  match goal with
  | H : startsWithAny ?t1 ?s = true |- startsWithAny t ?s = false =>
      apply (startsWithAny_disjoint t1 t s); [reflexivity .. | exact H]
  end.

Lemma isOpening_exclusive (code : jsstring) :
  Format.isOpening code = true ->
  Format.isEndSelect code = false /\ Format.isSelect code = false
  /\ Format.isCase code = false /\ Format.isClosing code = false
  /\ Format.isMiddle code = false.
Proof.
  unfold Format.isMiddle, Format.isEndSelect, Format.isSelect, Format.isCase,
    Format.isClosing, Format.isOpening.
  intros H. repeat split.
  - not_in_table [js "EndSelect"].
  - not_in_table [js "Select"].
  - not_in_table [js "Case"; js "Default"].
  - not_in_table Format.closingWords.
  - not_in_table Format.middleWords.
Qed.

Lemma isSelect_exclusive (code : jsstring) :
  Format.isSelect code = true -> Format.isEndSelect code = false.
Proof.
  unfold Format.isEndSelect, Format.isSelect.
  rewrite (startsWithWord_any (js "Select")).
  intros H. not_in_table [js "EndSelect"].
Qed.

Lemma indentStep_opening (st : FormatterState) (code : jsstring) :
  Format.isOpening code = true -> Format.hasInlineNetZero code = false ->
  indentStep st code
  = (indentLevel st, setIndentLevel (pinLevel st (indentLevel st + 1)) st).
Proof.
  intros Hop Hinl.
  destruct (isOpening_exclusive code Hop) as [E1 [E2 [E3 [E4 E5]]]].
  destruct st as [lvl sel base act]. unfold indentStep, setIndentLevel, pinLevel.
  cbn [indentLevel inSelect selectBaseIndent caseActive].
  rewrite Hinl, Hop, E1, E2, E3, E4, E5.
  destruct (startsWithWord (js "If") code && containsWord (js "EndIf") code);
    destruct sel, act; reflexivity.
Qed.

Lemma indentStep_closing (st : FormatterState) (code : jsstring) :
  Format.isClosing code = true -> Format.hasInlineNetZero code = false ->
  indentStep st code
  = (Z.max 0 (indentLevel st - 1),
     setIndentLevel (pinLevel st (Z.max 0 (indentLevel st - 1))) st).
Proof.
  intros Hcl Hinl.
  destruct (isClosing_exclusive code Hcl) as [E1 [E2 [E3 [E4 E5]]]].
  destruct st as [lvl sel base act]. unfold indentStep, setIndentLevel, pinLevel.
  cbn [indentLevel inSelect selectBaseIndent caseActive].
  rewrite Hinl, Hcl, E1, E2, E3, E4, E5.
  destruct (startsWithWord (js "If") code && containsWord (js "EndIf") code);
    destruct sel, act; reflexivity.
Qed.

Lemma indentStep_middle (st : FormatterState) (code : jsstring) :
  Format.isMiddle code = true -> Format.hasInlineNetZero code = false ->
  indentStep st code
  = (Z.max 0 (indentLevel st - 1),
     setIndentLevel (pinLevel st (Z.max 0 (indentLevel st - 1) + 1)) st).
Proof.
  intros Hmid Hinl.
  destruct (isMiddle_exclusive code Hmid) as [E1 [E2 [E3 [E4 E5]]]].
  destruct st as [lvl sel base act]. unfold indentStep, setIndentLevel, pinLevel.
  cbn [indentLevel inSelect selectBaseIndent caseActive].
  rewrite Hinl, Hmid, E1, E2, E3, E4, E5.
  destruct (startsWithWord (js "If") code && containsWord (js "EndIf") code);
    destruct sel, act; reflexivity.
Qed.

Lemma formatLine_of_code (options : FormattingOptions) (st : FormatterState)
      (raw : jsstring) :
  trim (stripStringsAndComments raw) <> [] ->
  formatLine options st raw
  = (snd (indentStep st (trim (stripStringsAndComments raw))),
     createIndent
       (Z.max 0 (fst (indentStep st (trim (stripStringsAndComments raw)))))
       options ++ trim raw).
Proof.
  intros Hcode. destruct (code_line_not_blank raw Hcode) as [Hb Hc].
  unfold formatLine. rewrite Hb, Hc.
  destruct (indentStep st _). reflexivity.
Qed.

Lemma classified_has_code (kws : list jsstring) (code : jsstring) :
  forallb (fun kw => negb (isEmpty kw)) kws = true ->
  startsWithAny kws code = true -> code <> [].
Proof.
  intros Hk H ->. unfold startsWithAny in H.
  apply existsb_exists in H. destruct H as [kw [Hin Hs]].
  rewrite forallb_forall in Hk. specialize (Hk kw Hin).
  destruct kw; [discriminate Hk | discriminate Hs].
Qed.

Variable options : FormattingOptions.
Variable st : FormatterState.
Hypothesis Hnn : nonNegative st.
Hypothesis Hpin : pinned st.

Lemma enter_block (opener : jsstring) :
  Format.isOpening (trim (stripStringsAndComments opener)) = true ->
  Format.hasInlineNetZero (trim (stripStringsAndComments opener)) = false ->
  formatLine options st opener
  = (setIndentLevel (indentLevel st + 1) st, createIndent (indentLevel st) options ++ trim opener).
Proof.
  intros Hop Hinl.
  rewrite formatLine_of_code
    by (apply (classified_has_code Format.openingWords); [reflexivity | exact Hop]).
  rewrite (indentStep_opening _ _ Hop Hinl). cbn [fst snd].
  destruct Hnn as [Hl Hb]. rewrite Z.max_r by exact Hl.
  f_equal. unfold pinLevel. f_equal.
  destruct (inSelect st) eqn:Es, (caseActive st) eqn:Ec; simpl; try reflexivity.
  specialize (Hpin Es Ec). lia.
Qed.

Lemma leave_block (closer : jsstring) :
  Format.isClosing (trim (stripStringsAndComments closer)) = true ->
  Format.hasInlineNetZero (trim (stripStringsAndComments closer)) = false ->
  formatLine options (setIndentLevel (indentLevel st + 1) st) closer
  = (st, createIndent (indentLevel st) options ++ trim closer).
Proof.
  intros Hcl Hinl.
  rewrite formatLine_of_code
    by (apply (classified_has_code Format.closingWords); [reflexivity | exact Hcl]).
  rewrite (indentStep_closing _ _ Hcl Hinl). cbn [fst snd].
  destruct Hnn as [Hl Hb]. unfold pinLevel, pinned in *.
  destruct st as [lvl sel base act].
  cbn [setIndentLevel indentLevel inSelect selectBaseIndent caseActive] in *.
  replace (lvl + 1 - 1) with lvl by lia.
  rewrite !(Z.max_r 0 lvl) by exact Hl.
  unfold setIndentLevel. cbn [indentLevel inSelect selectBaseIndent caseActive].
  f_equal. f_equal.
  destruct sel, act; simpl; try reflexivity.
  specialize (Hpin eq_refl eq_refl). lia.
Qed.

Lemma else_in_block (middle : jsstring) :
  Format.isMiddle (trim (stripStringsAndComments middle)) = true ->
  Format.hasInlineNetZero (trim (stripStringsAndComments middle)) = false ->
  formatLine options (setIndentLevel (indentLevel st + 1) st) middle
  = (setIndentLevel (indentLevel st + 1) st, createIndent (indentLevel st) options ++ trim middle).
Proof.
  intros Hmid Hinl.
  rewrite formatLine_of_code
    by (apply (classified_has_code Format.middleWords); [reflexivity | exact Hmid]).
  rewrite (indentStep_middle _ _ Hmid Hinl). cbn [fst snd].
  destruct Hnn as [Hl Hb]. unfold pinLevel, pinned in *.
  destruct st as [lvl sel base act].
  cbn [setIndentLevel indentLevel inSelect selectBaseIndent caseActive] in *.
  replace (lvl + 1 - 1) with lvl by lia.
  rewrite !(Z.max_r 0 lvl) by exact Hl.
  unfold setIndentLevel. cbn [indentLevel inSelect selectBaseIndent caseActive].
  f_equal. f_equal.
  destruct sel, act; simpl; try reflexivity.
  specialize (Hpin eq_refl eq_refl). lia.
Qed.

End BlockFacts.

(** X6: a block is balanced when its body is.  From a state of a run,
    an opening line, a body that leaves the state it starts in, and a
    closing line give back the state before the block; the opening and the
    closing line are rendered at the level of that state and the body
    starts one level deeper. *)
Theorem block_is_balanced :
  forall (options : FormattingOptions) (st : FormatterState)
         (opener closer : jsstring) (body : list jsstring),
    nonNegative st -> pinned st ->
    Format.isOpening (trim (stripStringsAndComments opener)) = true ->
    Format.hasInlineNetZero (trim (stripStringsAndComments opener)) = false ->
    Format.isClosing (trim (stripStringsAndComments closer)) = true ->
    Format.hasInlineNetZero (trim (stripStringsAndComments closer)) = false ->
    snd (formatLines options (setIndentLevel (indentLevel st + 1) st) body)
    = setIndentLevel (indentLevel st + 1) st ->
    formatLines options st (opener :: body ++ [closer])
    = ((createIndent (indentLevel st) options ++ trim opener)
         :: fst (formatLines options (setIndentLevel (indentLevel st + 1) st) body)
         ++ [createIndent (indentLevel st) options ++ trim closer],
       st).
Proof.
  intros options st opener closer body Hnn Hpin Hop Hopi Hcl Hcli Hbody.
  cbn [formatLines].
  rewrite (enter_block options st Hnn Hpin opener Hop Hopi).
  rewrite formatLines_app, Hbody. cbn [formatLines fst snd].
  rewrite (leave_block options st Hnn Hpin closer Hcl Hcli).
  reflexivity.
Qed.

Lemma block_is_balanced_witness :
  formatLines DEFAULT_OPTIONS startState
    (js "While a" :: [js "b()"] ++ [js "Wend"])
  = ([js "While a"; js "    b()"; js "Wend"], startState).
Proof.
  apply (block_is_balanced DEFAULT_OPTIONS startState (js "While a") (js "Wend")
           [js "b()"]);
    try reflexivity.
  - split; simpl; lia.
  - intros H; discriminate H.
Defined.

(** X7: an Else-like line inside a block stands at the level of the
    opening line and leaves the body level as it was: opening line, first
    body, Else, second body and closing line are balanced when both bodies
    are. *)
Theorem block_with_else_is_balanced :
  forall (options : FormattingOptions) (st : FormatterState)
         (opener middle closer : jsstring) (body1 body2 : list jsstring),
    nonNegative st -> pinned st ->
    Format.isOpening (trim (stripStringsAndComments opener)) = true ->
    Format.hasInlineNetZero (trim (stripStringsAndComments opener)) = false ->
    Format.isMiddle (trim (stripStringsAndComments middle)) = true ->
    Format.hasInlineNetZero (trim (stripStringsAndComments middle)) = false ->
    Format.isClosing (trim (stripStringsAndComments closer)) = true ->
    Format.hasInlineNetZero (trim (stripStringsAndComments closer)) = false ->
    snd (formatLines options (setIndentLevel (indentLevel st + 1) st) body1)
    = setIndentLevel (indentLevel st + 1) st ->
    snd (formatLines options (setIndentLevel (indentLevel st + 1) st) body2)
    = setIndentLevel (indentLevel st + 1) st ->
    formatLines options st (opener :: body1 ++ middle :: body2 ++ [closer])
    = ((createIndent (indentLevel st) options ++ trim opener)
         :: fst (formatLines options (setIndentLevel (indentLevel st + 1) st) body1)
         ++ (createIndent (indentLevel st) options ++ trim middle)
         :: fst (formatLines options (setIndentLevel (indentLevel st + 1) st) body2)
         ++ [createIndent (indentLevel st) options ++ trim closer],
       st).
Proof.
  intros options st opener middle closer body1 body2 Hnn Hpin
         Hop Hopi Hmid Hmidi Hcl Hcli Hb1 Hb2.
  cbn [formatLines].
  rewrite (enter_block options st Hnn Hpin opener Hop Hopi).
  rewrite formatLines_app, Hb1. cbn [formatLines fst snd].
  rewrite (else_in_block options st Hnn Hpin middle Hmid Hmidi).
  rewrite formatLines_app, Hb2. cbn [formatLines fst snd].
  rewrite (leave_block options st Hnn Hpin closer Hcl Hcli).
  reflexivity.
Qed.

Lemma block_with_else_is_balanced_witness :
  formatLines DEFAULT_OPTIONS startState
    (js "If a" :: [js "b()"] ++ js "Else" :: [js "c()"] ++ [js "EndIf"])
  = ([js "If a"; js "    b()"; js "Else"; js "    c()"; js "EndIf"], startState).
Proof.
  apply (block_with_else_is_balanced DEFAULT_OPTIONS startState
           (js "If a") (js "Else") (js "EndIf") [js "b()"] [js "c()"]);
    try reflexivity.
  - split; simpl; lia.
  - intros H; discriminate H.
Defined.

(** ** Select blocks *)

Lemma formatLine_keeps_select (options : FormattingOptions)
      (st : FormatterState) (raw : jsstring) :
  Format.isSelect (trim (stripStringsAndComments raw)) = false ->
  Format.isEndSelect (trim (stripStringsAndComments raw)) = false ->
  inSelect (fst (formatLine options st raw)) = inSelect st
  /\ selectBaseIndent (fst (formatLine options st raw)) = selectBaseIndent st.
Proof.
  intros Hs He. unfold formatLine.
  destruct (isEmpty (trim raw)); [split; reflexivity|].
  destruct (startsWithSemicolon (trim raw)); [split; reflexivity|].
  destruct (indentStep st _) as [l st'] eqn:E. cbn [fst].
  apply (f_equal snd) in E. cbn [snd] in E. subst st'.
  destruct st as [lvl sel base act]. unfold indentStep, setIndentLevel.
  cbn [indentLevel inSelect selectBaseIndent caseActive].
  rewrite Hs, He.
  generalize (startsWithWord (js "If") (trim (stripStringsAndComments raw))
              && containsWord (js "EndIf") (trim (stripStringsAndComments raw))).
  generalize (Format.hasInlineNetZero (trim (stripStringsAndComments raw)))
    (Format.isCase (trim (stripStringsAndComments raw)))
    (Format.isClosing (trim (stripStringsAndComments raw)))
    (Format.isMiddle (trim (stripStringsAndComments raw)))
    (Format.isOpening (trim (stripStringsAndComments raw))).
  intros inl ca cl mi op inlIf.
  destruct inl, sel, ca, cl, mi, op, inlIf, act; split; reflexivity.
Qed.

Lemma formatLines_keep_select (options : FormattingOptions)
      (body : list jsstring) :
  Forall (fun raw =>
            Format.isSelect (trim (stripStringsAndComments raw)) = false
            /\ Format.isEndSelect (trim (stripStringsAndComments raw)) = false)
         body ->
  forall st,
    inSelect (snd (formatLines options st body)) = inSelect st
    /\ selectBaseIndent (snd (formatLines options st body)) = selectBaseIndent st.
Proof.
  induction 1 as [|raw body [Hs He] _ IH]; intros st; simpl; [split; reflexivity|].
  destruct (formatLine_keeps_select options st raw Hs He) as [H1 H2].
  destruct (formatLine options st raw) as [st' o]. cbn [fst] in H1, H2.
  destruct (IH st') as [H3 H4].
  destruct (formatLines options st' body) as [out fin]. cbn [snd] in *.
  split; congruence.
Qed.

(** X8: EndSelect lines up with its Select whatever the body does.  After a
    Select line met at level [n >= 0] and any body without a further Select
    or EndSelect line (balanced or not), the EndSelect line is rendered at
    level [n] and leaves [indentLevel = n] outside any Select. *)
Theorem endselect_aligns_with_select :
  forall (options : FormattingOptions) (st : FormatterState)
         (sel endsel : jsstring) (body : list jsstring),
    0 <= indentLevel st ->
    Format.isSelect (trim (stripStringsAndComments sel)) = true ->
    Format.hasInlineNetZero (trim (stripStringsAndComments sel)) = false ->
    Forall (fun raw =>
              Format.isSelect (trim (stripStringsAndComments raw)) = false
              /\ Format.isEndSelect (trim (stripStringsAndComments raw)) = false)
           body ->
    Format.isEndSelect (trim (stripStringsAndComments endsel)) = true ->
    Format.hasInlineNetZero (trim (stripStringsAndComments endsel)) = false ->
    let entered :=
      {| indentLevel := indentLevel st + 1; inSelect := true;
         selectBaseIndent := indentLevel st; caseActive := false |} in
    formatLines options st (sel :: body ++ [endsel])
    = ((createIndent (indentLevel st) options ++ trim sel)
         :: fst (formatLines options entered body)
         ++ [createIndent (indentLevel st) options ++ trim endsel],
       {| indentLevel := indentLevel st; inSelect := false;
          selectBaseIndent := indentLevel st; caseActive := false |}).
Proof.
  intros options st sel endsel body Hl Hs Hsi Hbody He Hei entered.
  assert (Hsel : formatLine options st sel
                 = (entered, createIndent (indentLevel st) options ++ trim sel)).
  { rewrite formatLine_of_code
      by (intros E; rewrite E in Hs; discriminate Hs).
    pose proof (isSelect_exclusive _ Hs) as Hne.
    destruct st as [lvl sel0 base act]. unfold indentStep, setIndentLevel, entered.
    cbn [indentLevel inSelect selectBaseIndent caseActive] in *.
    rewrite Hsi, Hs, Hne.
    destruct (Format.isCase (trim (stripStringsAndComments sel)));
      cbn; rewrite Z.max_r by exact Hl; reflexivity. }
  cbn [formatLines]. rewrite Hsel.
  rewrite formatLines_app. cbn [formatLines fst snd].
  destruct (formatLines_keep_select options body Hbody entered) as [Hin Hbase].
  destruct (formatLines options entered body) as [out mid]. cbn [fst snd] in *.
  assert (Hend : formatLine options mid endsel
                 = ({| indentLevel := indentLevel st; inSelect := false;
                       selectBaseIndent := indentLevel st; caseActive := false |},
                    createIndent (indentLevel st) options ++ trim endsel)).
  { rewrite formatLine_of_code
      by (intros E; rewrite E in He; discriminate He).
    destruct (isEndSelect_exclusive _ He) as [E1 [E2 [E3 [E4 E5]]]].
    destruct mid as [lvl sel0 base act]. unfold entered in *.
    cbn [indentLevel inSelect selectBaseIndent caseActive] in *. subst sel0 base.
    unfold indentStep, setIndentLevel.
    cbn [indentLevel inSelect selectBaseIndent caseActive].
    rewrite Hei, He, E1, E2, E5.
    destruct (startsWithWord (js "If") (trim (stripStringsAndComments endsel))
              && containsWord (js "EndIf") (trim (stripStringsAndComments endsel)));
      cbn; rewrite !(Z.max_r 0 (indentLevel st)) by exact Hl; reflexivity. }
  rewrite Hend. reflexivity.
Qed.

Lemma endselect_aligns_with_select_witness :
  formatLines DEFAULT_OPTIONS startState
    (js "Select a" :: [js "Case 1"; js "EndIf"; js "EndIf"; js "Next"]
       ++ [js "EndSelect"])
  = ((createIndent 0 DEFAULT_OPTIONS ++ js "Select a")
       :: fst (formatLines DEFAULT_OPTIONS
                 {| indentLevel := 1; inSelect := true; selectBaseIndent := 0;
                    caseActive := false |}
                 [js "Case 1"; js "EndIf"; js "EndIf"; js "Next"])
       ++ [createIndent 0 DEFAULT_OPTIONS ++ js "EndSelect"],
     startState).
Proof.
  apply (endselect_aligns_with_select DEFAULT_OPTIONS startState
           (js "Select a") (js "EndSelect")
           [js "Case 1"; js "EndIf"; js "EndIf"; js "Next"]);
    try reflexivity.
  repeat constructor.
Defined.

(** ** Options *)

Lemma formatLines_state_options (o1 o2 : FormattingOptions)
      (lines : list jsstring) :
  forall st, snd (formatLines o1 st lines) = snd (formatLines o2 st lines).
Proof.
  induction lines as [|raw rest IH]; intros st; simpl; [reflexivity|].
  assert (Hfst : fst (formatLine o1 st raw) = fst (formatLine o2 st raw)).
  { unfold formatLine.
    destruct (isEmpty (trim raw)); [reflexivity|].
    destruct (startsWithSemicolon (trim raw)); [reflexivity|].
    destruct (indentStep st _). reflexivity. }
  destruct (formatLine o1 st raw) as [s1 x1], (formatLine o2 st raw) as [s2 x2].
  cbn [fst] in Hfst. subst s2. specialize (IH s1).
  destruct (formatLines o1 s1 rest), (formatLines o2 s1 rest). exact IH.
Qed.

Lemma formatLines_indent_ext (o1 o2 : FormattingOptions)
      (lines : list jsstring) :
  (forall level, createIndent level o1 = createIndent level o2) ->
  forall st, formatLines o1 st lines = formatLines o2 st lines.
Proof.
  intros Hind. induction lines as [|raw rest IH]; intros st; simpl; [reflexivity|].
  assert (Hline : formatLine o1 st raw = formatLine o2 st raw).
  { unfold formatLine. rewrite !Hind.
    destruct (indentStep st _). rewrite Hind. reflexivity. }
  rewrite Hline. destruct (formatLine o2 st raw) as [st' o].
  rewrite (IH st'). reflexivity.
Qed.

(** X9: the options reach the rendered indentation only.  The state the
    formatter is in after any lines is the same for all option values, and
    with [insertSpaces = false] the formatted text does not depend on
    [tabSize]: each level is one tab. *)
Theorem options_only_render :
  forall (text : jsstring) (o1 o2 : FormattingOptions)
         (initialState : option FormatterState) (a b : N),
    formatterStateAfter o1 (split text) = formatterStateAfter o2 (split text)
    /\ formatPureBasicCode text {| tabSize := a; insertSpaces := false |} initialState
       = formatPureBasicCode text {| tabSize := b; insertSpaces := false |} initialState.
Proof.
  intros text o1 o2 initialState a b. split.
  - apply formatLines_state_options.
  - unfold formatPureBasicCode.
    rewrite (formatLines_indent_ext {| tabSize := a; insertSpaces := false |}
               {| tabSize := b; insertSpaces := false |});
      reflexivity.
Qed.

(** ** Range formatting *)

Section RangeEdits.

Variable options : FormattingOptions.
Variable text : jsstring.
Variables s e : nat.
Hypothesis Hrange : (s <= e < length (split text))%nat.

Lemma range_pieces :
  split text
  = firstn s (split text) ++ slice s (S e) (split text)
      ++ skipn (S e) (split text)
  /\ length (firstn s (split text)) = s
  /\ length (slice s (S e) (split text)) = (S e - s)%nat
  /\ slice s (S e) (split text) <> []
  /\ Forall noNewline (firstn s (split text))
  /\ Forall noNewline (slice s (S e) (split text))
  /\ Forall noNewline (skipn (S e) (split text)).
Proof.
  assert (Hdec : split text
                 = firstn s (split text) ++ slice s (S e) (split text)
                     ++ skipn (S e) (split text)).
  { unfold slice. rewrite <- (firstn_skipn s (split text)) at 1. f_equal.
    rewrite <- (firstn_skipn (S e - s) (skipn s (split text))) at 1. f_equal.
    rewrite skipn_skipn. f_equal. lia. }
  assert (Hlen : length (slice s (S e) (split text)) = (S e - s)%nat).
  { unfold slice. apply firstn_length_le. rewrite length_skipn. lia. }
  pose proof (split_noNewline text) as Hall. rewrite Hdec in Hall.
  apply Forall_app in Hall. destruct Hall as [H1 Hall].
  apply Forall_app in Hall. destruct Hall as [H2 H3].
  repeat split; try assumption.
  - apply firstn_length_le. lia.
  - intros E. rewrite E in Hlen. cbn [length] in Hlen. lia.
Qed.

Lemma slice_prefix (lines : list jsstring) :
  slice 0 s lines = firstn s lines.
Proof. unfold slice. rewrite Nat.sub_0_r. reflexivity. Qed.

(** The text a range request formats, and what comes back for it. *)
Lemma range_result :
  formatPureBasicCode (join (slice s (S e) (split text))) options
    (Some (computeInitialFormatterState (slice 0 s (split text))))
  = join (fst (formatLines options
                 (computeInitialFormatterState (firstn s (split text)))
                 (slice s (S e) (split text)))).
Proof.
  destruct range_pieces as [_ [_ [_ [Hne [_ [Hnl _]]]]]].
  unfold formatPureBasicCode. rewrite (split_join _ Hne Hnl), slice_prefix.
  reflexivity.
Qed.

End RangeEdits.

Lemma served_range_result (options : FormattingOptions)
      (document : TextDocument) (range : Range) :
  (line (rangeStart range) <= line (rangeEnd range)
   < length (split (getText document)))%nat ->
  servesLines document range ->
  handleDocumentRangeFormatting options range document
  = let mid := slice (line (rangeStart range)) (S (line (rangeEnd range)))
                     (split (getText document)) in
    let out :=
      fst (formatLines options
             (computeInitialFormatterState
                (firstn (line (rangeStart range)) (split (getText document))))
             mid) in
    if list_eq_dec N.eq_dec (join out) (join mid) then []
    else [{| editRange := expandToFullLines document range;
             newText := join out |}].
Proof.
  intros Hrange Hserve. unfold handleDocumentRangeFormatting.
  rewrite Hserve. cbn [expandToFullLines rangeStart line].
  rewrite (range_result options (getText document) _ _ Hrange).
  reflexivity.
Qed.

(** X10: range formatting is stable.  On a buffer that serves the lines of
    the range, once the replacement a range request returns has been put
    into the text, the same request on the new text returns no edit. *)
Theorem range_format_is_stable :
  forall (options : FormattingOptions) (document document' : TextDocument)
         (range : Range) (ed : TextEdit),
    (line (rangeStart range) <= line (rangeEnd range)
     < length (split (getText document)))%nat ->
    servesLines document range ->
    handleDocumentRangeFormatting options range document = [ed] ->
    getText document'
    = replaceLines (getText document) (line (rangeStart range))
        (line (rangeEnd range)) (newText ed) ->
    servesLines document' range ->
    handleDocumentRangeFormatting options range document' = [].
Proof.
  intros options document document' range ed Hrange Hserve Hed Htext' Hserve'.
  set (s := line (rangeStart range)) in *.
  set (e := line (rangeEnd range)) in *.
  set (text := getText document) in *.
  destruct (range_pieces text s e Hrange)
    as [Hdec [Hpre [Hmid [Hne [Hn1 [Hn2 Hn3]]]]]].
  rewrite (served_range_result options document range Hrange Hserve) in Hed.
  cbv zeta in Hed. fold s e text in Hed.
  destruct (list_eq_dec N.eq_dec _ _) as [_|_] in Hed; [discriminate Hed|].
  injection Hed as <-. cbn [newText] in Htext'.
  set (st0 := computeInitialFormatterState (firstn s (split text))) in *.
  set (mid := slice s (S e) (split text)) in *.
  set (out := fst (formatLines options st0 mid)) in *.
  assert (Hout_len : length out = (S e - s)%nat).
  { unfold out. rewrite formatLines_length. exact Hmid. }
  assert (Hout_nl : Forall noNewline out).
  { unfold out. apply formatLines_noNewline. exact Hn2. }
  assert (Hout_ne : out <> []).
  { intros E. rewrite E in Hout_len. cbn [length] in Hout_len. lia. }
  assert (Hnew : split (getText document')
                 = firstn s (split text) ++ out ++ skipn (S e) (split text)).
  { rewrite Htext'. unfold replaceLines.
    rewrite (split_join out Hout_ne Hout_nl).
    apply split_join.
    - intros E. apply app_eq_nil in E. destruct E as [_ E].
      apply app_eq_nil in E. destruct E as [E _]. exact (Hout_ne E).
    - apply Forall_app. split; [exact Hn1|].
      apply Forall_app. split; assumption. }
  unfold handleDocumentRangeFormatting. rewrite Hserve'.
  cbn [expandToFullLines rangeStart line]. fold s e. rewrite Hnew.
  assert (Hsl : slice s (S e) (firstn s (split text) ++ out
                                 ++ skipn (S e) (split text)) = out).
  { apply slice_middle; assumption. }
  assert (Hpf : slice 0 s (firstn s (split text) ++ out
                             ++ skipn (S e) (split text))
                = firstn s (split text)).
  { rewrite slice_prefix.
    rewrite firstn_app, Hpre, Nat.sub_diag. simpl firstn at 2.
    rewrite app_nil_r. rewrite <- Hpre at 1. apply firstn_all. }
  rewrite Hsl, Hpf. fold st0.
  assert (Hid : fst (formatLines options st0 out) = out).
  { unfold out. rewrite formatLines_idem. reflexivity. }
  unfold formatPureBasicCode. rewrite (split_join out Hout_ne Hout_nl), Hid.
  destruct (list_eq_dec N.eq_dec (join out) (join out)) as [_|Hneq];
    [reflexivity | exfalso; apply Hneq; reflexivity].
Qed.

Lemma range_format_is_stable_witness :
  handleDocumentRangeFormatting DEFAULT_OPTIONS (linesRange 1 1)
    (lineDocument
       (replaceLines (js "If a" ++ ch_newline :: js "b") 1 1 (js "    b")))
  = [].
Proof.
  apply (range_format_is_stable DEFAULT_OPTIONS
           (lineDocument (js "If a" ++ ch_newline :: js "b"))
           (lineDocument
              (replaceLines (js "If a" ++ ch_newline :: js "b") 1 1 (js "    b")))
           (linesRange 1 1)
           {| editRange :=
                expandToFullLines
                  (lineDocument (js "If a" ++ ch_newline :: js "b"))
                  (linesRange 1 1);
              newText := js "    b" |}).
  - vm_compute. split; reflexivity.
  - reflexivity.
  - vm_compute. reflexivity.
  - reflexivity.
  - reflexivity.
Defined.

(** X11: a range edit keeps the lines.  On a buffer that serves the lines
    of the range, the replacement covers the expanded range, has as many
    lines as the range, and each of its lines is the line of the text it
    replaces up to leading and trailing whitespace. *)
Theorem range_edit_keeps_content :
  forall (options : FormattingOptions) (document : TextDocument)
         (range : Range) (ed : TextEdit),
    (line (rangeStart range) <= line (rangeEnd range)
     < length (split (getText document)))%nat ->
    servesLines document range ->
    handleDocumentRangeFormatting options range document = [ed] ->
    editRange ed = expandToFullLines document range
    /\ length (split (newText ed))
       = (S (line (rangeEnd range)) - line (rangeStart range))%nat
    /\ forall i, (i <= line (rangeEnd range) - line (rangeStart range))%nat ->
                 trim (nth i (split (newText ed)) [])
                 = trim (nth (line (rangeStart range) + i)
                             (split (getText document)) []).
Proof.
  intros options document range ed Hrange Hserve Hed.
  set (s := line (rangeStart range)) in *.
  set (e := line (rangeEnd range)) in *.
  set (text := getText document) in *.
  destruct (range_pieces text s e Hrange)
    as [Hdec [Hpre [Hmid [Hne [Hn1 [Hn2 Hn3]]]]]].
  rewrite (served_range_result options document range Hrange Hserve) in Hed.
  cbv zeta in Hed. fold s e text in Hed.
  destruct (list_eq_dec N.eq_dec _ _) as [_|_] in Hed; [discriminate Hed|].
  injection Hed as <-. cbn [editRange newText].
  set (st0 := computeInitialFormatterState (firstn s (split text))).
  assert (Hsplit : split (join (fst (formatLines options st0
                                       (slice s (S e) (split text)))))
                   = fst (formatLines options st0 (slice s (S e) (split text)))).
  { apply split_join.
    - intros E. apply (f_equal (@length _)) in E.
      rewrite formatLines_length, Hmid in E. cbn [length] in E. lia.
    - apply formatLines_noNewline. exact Hn2. }
  rewrite Hsplit. split; [reflexivity|]. split.
  - rewrite formatLines_length. exact Hmid.
  - intros i Hi. rewrite formatLines_nth_trim.
    unfold slice. rewrite nth_firstn.
    destruct (Nat.ltb_spec i (S e - s)) as [_|Hge]; [|lia].
    rewrite nth_skipn. reflexivity.
Qed.

Lemma range_edit_keeps_content_witness :
  length (split (js "    b")) = 1%nat.
Proof.
  exact (proj1 (proj2
           (range_edit_keeps_content DEFAULT_OPTIONS
              (lineDocument (js "If a" ++ ch_newline :: js "b"))
              (linesRange 1 1)
              {| editRange :=
                   expandToFullLines
                     (lineDocument (js "If a" ++ ch_newline :: js "b"))
                     (linesRange 1 1);
                 newText := js "    b" |}
              ltac:(vm_compute; split; reflexivity)
              eq_refl
              ltac:(vm_compute; reflexivity)))).
Defined.

(** X12: range formatting never meets a negative level either.  Started
    from the reconstructed state of any lines, the formatter keeps
    [indentLevel >= 0] after any number of lines of any range, and renders
    the next line at a level that is at least 0. *)
Theorem range_levels_never_negative :
  forall (options : FormattingOptions) (linesBefore rangeLines : list jsstring)
         (n : nat),
    let st := snd (formatLines options
                     (computeInitialFormatterState linesBefore)
                     (firstn n rangeLines)) in
    0 <= indentLevel (computeInitialFormatterState linesBefore)
    /\ 0 <= indentLevel st
    /\ forall code, 0 <= fst (indentStep st code).
Proof.
  intros options linesBefore rangeLines n st.
  destruct (computeInitialFormatterState_invariant linesBefore) as [H0 _].
  assert (Hst : nonNegative st) by (apply formatLines_nonNegative; exact H0).
  split; [exact (proj1 H0)|]. split; [exact (proj1 Hst)|].
  intros code. exact (proj1 (indentStep_nonNegative st code Hst)).
Qed.

(** ** Where the reconstructor and the formatter agree *)

Lemma initialStep_shared (st : FormatterState) (code : jsstring) :
  nonNegative st -> sharedRules st code = true ->
  initialStep st code = snd (indentStep st code).
Proof.
  intros [Hl Hb] Hsh. unfold sharedRules in Hsh.
  apply andb_true_iff in Hsh. destruct Hsh as [Hinl Hrest].
  apply eqb_prop in Hinl.
  unfold initialStep, indentStep. rewrite <- Hinl.
  change (Initial.isEndSelect code) with (Format.isEndSelect code).
  change (Initial.isSelect code) with (Format.isSelect code).
  change (Initial.isCase code) with (Format.isCase code).
  destruct (Format.hasInlineNetZero code) eqn:Einl; [reflexivity|].
  simpl in Hrest.
  apply andb_true_iff in Hrest. destruct Hrest as [Hrest Hcase].
  apply andb_true_iff in Hrest. destruct Hrest as [Hrest Hmid].
  apply andb_true_iff in Hrest. destruct Hrest as [Hcl Hop].
  apply eqb_prop in Hcl, Hop. rewrite <- Hcl, <- Hop.
  pose proof (isMiddle_exclusive code) as Xmi.
  pose proof (isCase_exclusive code) as Xca.
  pose proof (isClosing_exclusive code) as Xcl.
  pose proof (isEndSelect_exclusive code) as Xes.
  pose proof (isOpening_exclusive code) as Xop.
  pose proof (isSelect_exclusive code) as Xse.
  destruct st as [lvl sel base act]. unfold setIndentLevel.
  cbn [indentLevel inSelect selectBaseIndent caseActive] in *.
  revert Hmid Hcase Xmi Xca Xcl Xes Xop Xse.
  generalize (startsWithWord (js "If") code && containsWord (js "EndIf") code).
  generalize (startsWithWord (js "If") code).
  generalize (Format.isEndSelect code) (Format.isSelect code)
    (Format.isCase code) (Format.isClosing code) (Format.isMiddle code)
    (Format.isOpening code).
  intros es se ca cl mi op startsIf inlIf Hmid Hcase Xmi Xca Xcl Xes Xop Xse.
  destruct es; [destruct (Xes eq_refl) as [-> [-> [-> [-> ->]]]]|];
    [destruct sel, inlIf; cbn; try reflexivity; f_equal; lia|].
  destruct se; [destruct ca, cl, mi, op, inlIf, sel, act; reflexivity|].
  destruct mi; [destruct (Xmi eq_refl) as [_ [_ [-> [-> ->]]]]|].
  { simpl in Hmid. apply Z.leb_le in Hmid.
    destruct sel, act, inlIf; cbn; f_equal; lia. }
  destruct ca; [destruct (Xca eq_refl) as [_ [_ [_ [-> _]]]]|].
  { destruct sel; [discriminate Hcase|].
    destruct op, inlIf, act; reflexivity. }
  destruct cl; [destruct (Xcl eq_refl) as [_ [_ [_ [_ ->]]]]|].
  { destruct sel, act, inlIf; reflexivity. }
  destruct op, sel, act, inlIf; reflexivity.
Qed.

Lemma formatLine_state (options : FormattingOptions) (st : FormatterState)
      (raw : jsstring) :
  fst (formatLine options st raw)
  = if isEmpty (trim raw) || startsWithSemicolon (trim raw) then st
    else snd (indentStep st (trim (stripStringsAndComments raw))).
Proof.
  unfold formatLine.
  destruct (isEmpty (trim raw)); [reflexivity|].
  destruct (startsWithSemicolon (trim raw)); [reflexivity|].
  destruct (indentStep st _). reflexivity.
Qed.

Lemma sharedAlong_agrees (options : FormattingOptions) (lines : list jsstring) :
  forall st,
    nonNegative st -> sharedAlong st lines = true ->
    fold_left initialLine lines st = snd (formatLines options st lines).
Proof.
  induction lines as [|raw rest IH]; intros st Hnn Hsh; [reflexivity|].
  cbn [fold_left formatLines sharedAlong] in *.
  pose proof (formatLine_state options st raw) as Hst.
  pose proof (formatLine_nonNegative options st raw Hnn) as Hnn'.
  destruct (formatLine options st raw) as [st' o]. cbn [fst] in Hst, Hnn'.
  replace (initialLine st raw)
    with (if isEmpty (trim raw) || startsWithSemicolon (trim raw) then st
          else initialStep st (trim (stripStringsAndComments raw)))
    by reflexivity.
  destruct (isEmpty (trim raw) || startsWithSemicolon (trim raw)).
  - subst st'. rewrite (IH st Hnn Hsh).
    destruct (formatLines options st rest). reflexivity.
  - apply andb_true_iff in Hsh. destruct Hsh as [H1 H2].
    rewrite (initialStep_shared st _ Hnn H1). rewrite <- Hst in *.
    rewrite (IH st' Hnn' H2).
    destruct (formatLines options st' rest). reflexivity.
Qed.

Lemma reconstructor_parity_helper (options : FormattingOptions)
      (linesBefore : list jsstring) :
  sharedAlong startState linesBefore = true ->
  computeInitialFormatterState linesBefore
  = formatterStateAfter options linesBefore.
Proof.
  intros H. unfold computeInitialFormatterState, formatterStateAfter.
  apply sharedAlong_agrees; [split; simpl; lia | exact H].
Qed.

(** X13: on lines within the shared rules the reconstructor returns the
    state the formatter is in after the same lines.  The shared rules leave
    out Macro, DataSection, CompilerIf and CompilerSelect blocks, Else-like
    lines met at level 0 and Case labels inside a Select. *)
Theorem reconstructor_parity_on_shared_rules :
  forall (options : FormattingOptions) (linesBefore : list jsstring),
    sharedAlong startState linesBefore = true ->
    computeInitialFormatterState linesBefore
    = formatterStateAfter options linesBefore.
Proof.
  intros options linesBefore H.
  exact (reconstructor_parity_helper options linesBefore H).
Qed.

Lemma reconstructor_parity_on_shared_rules_witness :
  computeInitialFormatterState
    [js "Procedure f()"; js "If a"; js "  x = 1 ; note"; js "Else"; js "Select b"]
  = formatterStateAfter DEFAULT_OPTIONS
      [js "Procedure f()"; js "If a"; js "  x = 1 ; note"; js "Else"; js "Select b"].
Proof.
  apply reconstructor_parity_on_shared_rules. vm_compute. reflexivity.
Defined.

(** X14: on a buffer that serves the lines of the range, when the lines
    before the range are within the shared rules, range formatting returns
    the lines full formatting gives for the range: no edit when they are
    the lines of the text, and else the replacement of the expanded range
    by them. *)
Theorem range_equals_full_on_shared_rules :
  forall (options : FormattingOptions) (document : TextDocument)
         (range : Range),
    (line (rangeStart range) <= line (rangeEnd range)
     < length (split (getText document)))%nat ->
    servesLines document range ->
    sharedAlong startState
      (slice 0 (line (rangeStart range)) (split (getText document))) = true ->
    handleDocumentRangeFormatting options range document
    = let span :=
        join (slice (line (rangeStart range)) (S (line (rangeEnd range)))
                (split (formatPureBasicCode (getText document) options None))) in
      if list_eq_dec N.eq_dec span
           (join (slice (line (rangeStart range)) (S (line (rangeEnd range)))
                    (split (getText document))))
      then []
      else [{| editRange := expandToFullLines document range; newText := span |}].
Proof.
  intros options document range Hrange Hserve Hsh. cbv zeta.
  unfold handleDocumentRangeFormatting. rewrite Hserve.
  cbn [expandToFullLines rangeStart line].
  rewrite (reconstructor_parity_helper options _ Hsh).
  rewrite (range_matches_full_given_state options (getText document) _ _ Hrange).
  reflexivity.
Qed.

Lemma range_equals_full_on_shared_rules_witness :
  handleDocumentRangeFormatting DEFAULT_OPTIONS (linesRange 3 3)
    (lineDocument (join [js "If a"; js "b"; js "Else"; js "c"; js "EndIf"]))
  = [{| editRange :=
          expandToFullLines
            (lineDocument (join [js "If a"; js "b"; js "Else"; js "c"; js "EndIf"]))
            (linesRange 3 3);
        newText := js "    c" |}].
Proof.
  refine (eq_trans
            (range_equals_full_on_shared_rules DEFAULT_OPTIONS
               (lineDocument (join [js "If a"; js "b"; js "Else"; js "c"; js "EndIf"]))
               (linesRange 3 3) _ _ _) _).
  - vm_compute. lia.
  - reflexivity.
  - vm_compute. reflexivity.
  - vm_compute. reflexivity.
Defined.

(** * Properties of the project parser *)

(** ** Literal replacement *)

Lemma replaceAllFrom_absent (p : char) (pat' rep s : jsstring) :
  ~ In p s -> replaceAllFrom 0 (p :: pat') rep s = s.
Proof.
  intros Hn. induction s as [|c s IH]; [reflexivity|].
  cbn [replaceAllFrom literalAt].
  assert (Hc : (p =? c)%N = false).
  { apply N.eqb_neq. intros ->. apply Hn. left. reflexivity. }
  rewrite Hc. cbn. f_equal. apply IH. intros H. apply Hn. right. exact H.
Qed.

Lemma replaceAllFrom_single_gone (p : char) (rep s : jsstring) :
  ~ In p rep -> ~ In p (replaceAllFrom 0 [p] rep s).
Proof.
  intros Hrep. induction s as [|c s IH]; [intros []|].
  cbn [replaceAllFrom literalAt length Nat.sub].
  destruct (p =? c)%N eqn:E; cbn [andb].
  - intros H. apply in_app_or in H.
    destruct H as [H|H]; [exact (Hrep H) | exact (IH H)].
  - intros [H|H]; [apply N.eqb_neq in E; congruence | exact (IH H)].
Qed.

(** X15: the normalized text holds no carriage return, a text without
    carriage return is left as it is, and normalizing twice is normalizing
    once. *)
Theorem normalizeNewlines_removes_cr :
  forall content : jsstring,
    ~ In ch_cr (normalizeNewlines content)
    /\ (~ In ch_cr content -> normalizeNewlines content = content)
    /\ normalizeNewlines (normalizeNewlines content) = normalizeNewlines content.
Proof.
  intros content.
  assert (Hid : forall t, ~ In ch_cr t -> normalizeNewlines t = t).
  { intros t Ht. unfold normalizeNewlines, replaceAll.
    rewrite (replaceAllFrom_absent ch_cr [ch_newline] _ t Ht).
    apply (replaceAllFrom_absent ch_cr [] _ t Ht). }
  assert (Hno : ~ In ch_cr (normalizeNewlines content)).
  { unfold normalizeNewlines, replaceAll.
    apply replaceAllFrom_single_gone. intros [H|[]]. discriminate H. }
  split; [exact Hno|]. split; [exact (Hid content)|].
  apply Hid. exact Hno.
Qed.

(** ** XML entities *)

Lemma replaceAllFrom_skip (pat rep l rest : jsstring) :
  replaceAllFrom (length l) pat rep (l ++ rest) = replaceAllFrom 0 pat rep rest.
Proof.
  induction l as [|c l IH]; [reflexivity|]. simpl. exact IH.
Qed.

Lemma literalAt_self (pat rest : jsstring) : literalAt pat (pat ++ rest) = true.
Proof.
  induction pat as [|p pat IH]; [reflexivity|].
  simpl. rewrite N.eqb_refl. exact IH.
Qed.

Lemma replaceAllFrom_match (p : char) (pat' rep rest : jsstring) :
  replaceAllFrom 0 (p :: pat') rep ((p :: pat') ++ rest)
  = rep ++ replaceAllFrom 0 (p :: pat') rep rest.
Proof.
  cbn [app replaceAllFrom].
  change (p :: pat' ++ rest) with ((p :: pat') ++ rest).
  rewrite literalAt_self. f_equal.
  cbn [length Nat.sub]. rewrite Nat.sub_0_r. apply replaceAllFrom_skip.
Qed.

Lemma differsWithin_no_match (pat u rest : jsstring) :
  differsWithin pat u = true -> literalAt pat (u ++ rest) = false.
Proof.
  revert u. induction pat as [|p pat IH]; intros [|c u] H; simpl in *;
    try discriminate.
  destruct (p =? c)%N; simpl in *; [apply IH; exact H | reflexivity].
Qed.

Lemma replaceAllFrom_clear (pat rep chunk rest : jsstring) :
  clearOf pat chunk = true ->
  replaceAllFrom 0 pat rep (chunk ++ rest)
  = chunk ++ replaceAllFrom 0 pat rep rest.
Proof.
  induction chunk as [|c chunk IH]; intros H; [reflexivity|].
  cbn [clearOf] in H. apply andb_true_iff in H. destruct H as [Hd Hc].
  cbn [app replaceAllFrom].
  change (c :: chunk ++ rest) with ((c :: chunk) ++ rest).
  rewrite (differsWithin_no_match _ _ _ Hd). cbn [app]. f_equal.
  apply IH. exact Hc.
Qed.

Lemma escChunk_plain (done : list char) (c : char) :
  c <> ch_dquote -> c <> ch_squote -> c <> ch_lt -> c <> ch_gt -> c <> ch_amp ->
  escChunk done c = [c].
Proof.
  intros H1 H2 H3 H4 H5. unfold escChunk, xmlEntity.
  destruct (existsb (N.eqb c) done); [reflexivity|].
  rewrite (proj2 (N.eqb_neq _ _) H1), (proj2 (N.eqb_neq _ _) H2),
    (proj2 (N.eqb_neq _ _) H3), (proj2 (N.eqb_neq _ _) H4),
    (proj2 (N.eqb_neq _ _) H5).
  reflexivity.
Qed.

Section DecodePasses.

(** One replacement of [decodeXmlEntities]: the entity of [x] gives way to
    [x], the other chunks stay. *)
Variable x : char.
Variable done : list char.
Variable p : char.
Variable pat' : jsstring.
Hypothesis Hamp : p = ch_amp.
Hypothesis Hfive :
  forall c, In c [ch_dquote; ch_squote; ch_lt; ch_gt; ch_amp] ->
            (escChunk done c = p :: pat' /\ escChunk (x :: done) c = [x])
            \/ (clearOf (p :: pat') (escChunk done c) = true
                /\ escChunk (x :: done) c = escChunk done c).

Lemma decode_pass (s : jsstring) :
  replaceAllFrom 0 (p :: pat') [x] (escapeExcept done s)
  = escapeExcept (x :: done) s.
Proof.
  unfold escapeExcept. induction s as [|c s IH]; [reflexivity|].
  cbn [flat_map].
  assert (Hcase : In c [ch_dquote; ch_squote; ch_lt; ch_gt; ch_amp]
                  \/ (c <> ch_dquote /\ c <> ch_squote /\ c <> ch_lt
                      /\ c <> ch_gt /\ c <> ch_amp)).
  { destruct (N.eq_dec c ch_dquote) as [->|N1]; [left; simpl; tauto|].
    destruct (N.eq_dec c ch_squote) as [->|N2]; [left; simpl; tauto|].
    destruct (N.eq_dec c ch_lt) as [->|N3]; [left; simpl; tauto|].
    destruct (N.eq_dec c ch_gt) as [->|N4]; [left; simpl; tauto|].
    destruct (N.eq_dec c ch_amp) as [->|N5]; [left; simpl; tauto|].
    right. tauto. }
  destruct Hcase as [Hin|[N1 [N2 [N3 [N4 N5]]]]].
  - destruct (Hfive c Hin) as [[E1 E2]|[E1 E2]].
    + rewrite E1, E2, replaceAllFrom_match, IH. reflexivity.
    + rewrite E2, (replaceAllFrom_clear _ _ _ _ E1), IH. reflexivity.
  - rewrite !escChunk_plain by assumption.
    rewrite (replaceAllFrom_clear (p :: pat') [x] [c]), IH; [reflexivity|].
    cbn. subst p. rewrite (proj2 (N.eqb_neq ch_amp c)); [reflexivity|].
    intros E. apply N5. symmetry. exact E.
Qed.

End DecodePasses.

Ltac five_chunks :=
  intros c Hin; simpl in Hin;
  repeat (destruct Hin as [<-|Hin];
          [first [left; split; reflexivity | right; split; reflexivity]|]);
  destruct Hin.

Lemma escapeExcept_all (s : jsstring) :
  escapeExcept [ch_amp; ch_gt; ch_lt; ch_squote; ch_dquote] s = s.
Proof.
  unfold escapeExcept. induction s as [|c s IH]; [reflexivity|].
  cbn [flat_map]. rewrite IH.
  destruct (N.eq_dec c ch_dquote) as [->|N1]; [reflexivity|].
  destruct (N.eq_dec c ch_squote) as [->|N2]; [reflexivity|].
  destruct (N.eq_dec c ch_lt) as [->|N3]; [reflexivity|].
  destruct (N.eq_dec c ch_gt) as [->|N4]; [reflexivity|].
  destruct (N.eq_dec c ch_amp) as [->|N5]; [reflexivity|].
  rewrite escChunk_plain by assumption. reflexivity.
Qed.

(** X16: [decodeXmlEntities] undoes the XML escaping of the five
    characters: the XML text of any string decodes to that string.  In
    particular an escaped ampersand followed by an entity name is not
    decoded twice. *)
Theorem decodeXmlEntities_inverts_escape :
  forall s : jsstring, decodeXmlEntities (xmlEscape s) = s.
Proof.
  intros s. unfold decodeXmlEntities, replaceAll.
  change (xmlEscape s) with (escapeExcept [] s).
  rewrite (decode_pass ch_dquote [] ch_amp (js "quot;") eq_refl)
    by five_chunks.
  rewrite (decode_pass ch_squote [ch_dquote] ch_amp (js "apos;") eq_refl)
    by five_chunks.
  rewrite (decode_pass ch_lt [ch_squote; ch_dquote] ch_amp (js "lt;") eq_refl)
    by five_chunks.
  rewrite (decode_pass ch_gt [ch_lt; ch_squote; ch_dquote] ch_amp (js "gt;")
             eq_refl)
    by five_chunks.
  rewrite (decode_pass ch_amp [ch_gt; ch_lt; ch_squote; ch_dquote] ch_amp (js "amp;")
             eq_refl)
    by five_chunks.
  apply escapeExcept_all.
Qed.

(** X17: a text without ampersand is decoded to itself. *)
Theorem decodeXmlEntities_plain :
  forall s : jsstring, ~ In ch_amp s -> decodeXmlEntities s = s.
Proof.
  intros s Hn. unfold decodeXmlEntities, replaceAll.
  rewrite (replaceAllFrom_absent ch_amp (js "quot;") _ s Hn).
  rewrite (replaceAllFrom_absent ch_amp (js "apos;") _ s Hn).
  rewrite (replaceAllFrom_absent ch_amp (js "lt;") _ s Hn).
  rewrite (replaceAllFrom_absent ch_amp (js "gt;") _ s Hn).
  apply (replaceAllFrom_absent ch_amp (js "amp;") _ s Hn).
Qed.

Lemma decodeXmlEntities_plain_witness :
  decodeXmlEntities (js "a < b") = js "a < b".
Proof.
  apply decodeXmlEntities_plain. vm_compute. intros H.
  repeat (destruct H as [H|H]; [discriminate H|]). exact H.
Defined.

(** ** Targets and file lists *)

(** X18: the default target is an enabled target of the project; it is
    one marked as default whenever an enabled target is so marked; and
    there is none exactly when no target is enabled. *)
Theorem selectDefaultTarget_spec :
  forall project : Pbp.PbpProject,
    match Pbp.selectDefaultTarget project with
    | Some t =>
        In t (Pbp.targets project) /\ Pbp.enabled t = true
        /\ (Pbp.isDefault t = true
            \/ forall u, In u (Pbp.targets project) ->
                         Pbp.enabled u = true -> Pbp.isDefault u = false)
    | None =>
        forall u, In u (Pbp.targets project) -> Pbp.enabled u = false
    end.
Proof.
  intros project. unfold Pbp.selectDefaultTarget.
  destruct (find (fun t => Pbp.enabled t && Pbp.isDefault t) (Pbp.targets project))
    as [t|] eqn:E1.
  - apply find_some in E1. destruct E1 as [Hin Ht].
    apply andb_true_iff in Ht. destruct Ht as [He Hd].
    repeat split; [exact Hin | exact He | left; exact Hd].
  - pose proof (find_none _ _ E1) as Hnone.
    destruct (find (fun t => Pbp.enabled t) (Pbp.targets project)) as [t|] eqn:E2.
    + apply find_some in E2. destruct E2 as [Hin He].
      repeat split; [exact Hin | exact He |].
      right. intros u Hu Hue. specialize (Hnone u Hu). cbn beta in Hnone.
      rewrite Hue in Hnone. exact Hnone.
    + exact (find_none _ _ E2).
Qed.

Lemma lowerEndsWith_pb_not_pbi (p : jsstring) :
  lowerEndsWith (js ".pb") p = true -> lowerEndsWith (js ".pbi") p = false.
Proof.
  unfold lowerEndsWith.
  change (rev (js ".pb")) with [98; 112; 46]%N.
  change (rev (js ".pbi")) with [105; 98; 112; 46]%N.
  destruct (rev p) as [|c r]; [discriminate|].
  cbn [matchKeyword]. unfold ciMatch.
  change (asciiUpper 98%N) with 66%N. change (asciiUpper 105%N) with 73%N.
  destruct (N.eqb_spec 66%N (asciiUpper c)) as [E|_]; [|discriminate].
  intros _. rewrite <- E. reflexivity.
Qed.

(** X19: the source files and the include files of a project are paths of
    its file entries, and no path is in both lists; the server's list of
    project files is the one followed by the other. *)
Theorem project_file_lists :
  forall (pathSep platform documentUri : jsstring) (project : Pbp.PbpProject)
         (p : jsstring),
    (In p (Pbp.getProjectSourceFiles project) ->
     In p (map Pbp.fsPath (Pbp.files project))
     /\ ~ In p (Pbp.getProjectIncludeFiles project))
    /\ (In p (Pbp.getProjectIncludeFiles project) ->
        In p (map Pbp.fsPath (Pbp.files project)))
    /\ Server.extractProjectFiles
         (Server.mapToServerProjectFile pathSep platform documentUri project)
       = Pbp.getProjectSourceFiles project ++ Pbp.getProjectIncludeFiles project.
Proof.
  intros pathSep platform documentUri project p.
  unfold Pbp.getProjectSourceFiles, Pbp.getProjectIncludeFiles.
  split; [|split; [|reflexivity]].
  - intros Hsrc. apply filter_In in Hsrc. destruct Hsrc as [Hin H1].
    split; [exact Hin|].
    intros Hinc. apply filter_In in Hinc. destruct Hinc as [_ H2].
    rewrite (lowerEndsWith_pb_not_pbi p H1) in H2. discriminate H2.
  - intros Hinc. apply filter_In in Hinc. exact (proj1 Hinc).
Qed.

Lemma project_file_lists_witness :
  ~ In (js "/p/Main.PB")
       (Pbp.getProjectIncludeFiles
          {| Pbp.projectFile := js "/p/a.pbp"; Pbp.projectDir := js "/p";
             Pbp.projectName := js "a"; Pbp.comment := [];
             Pbp.files := [{| Pbp.rawPath := js "Main.PB";
                              Pbp.fsPath := js "/p/Main.PB";
                              Pbp.config := None |}];
             Pbp.targets := [] |}).
Proof.
  refine (proj2 (proj1 (project_file_lists (js "/") (js "linux") [] _ _) _)).
  vm_compute. left. reflexivity.
Defined.

Lemma literalAt_rev_app (suffix x : jsstring) :
  endsWith suffix (x ++ suffix) = true.
Proof. unfold endsWith. rewrite rev_app_distr. apply literalAt_self. Qed.

(** X20: the directory of the server project is empty when the project
    directory is, and else ends with exactly the separator it had or the
    one added: adding the separator twice adds it once. *)
Theorem ensureTrailingSep_once :
  forall pathSep dirPath : jsstring,
    (Server.ensureTrailingSep pathSep dirPath = [] <-> dirPath = [])
    /\ (dirPath <> [] ->
        endsWith pathSep (Server.ensureTrailingSep pathSep dirPath) = true)
    /\ Server.ensureTrailingSep pathSep (Server.ensureTrailingSep pathSep dirPath)
       = Server.ensureTrailingSep pathSep dirPath.
Proof.
  intros pathSep dirPath. unfold Server.ensureTrailingSep.
  destruct dirPath as [|c d]; cbn [isEmpty].
  - repeat split; try reflexivity. intros H. congruence.
  - destruct (endsWith pathSep (c :: d)) eqn:E.
    + repeat split; try discriminate.
      * intros _. exact E.
      * cbn [isEmpty]. rewrite E. reflexivity.
    + repeat split; try discriminate.
      * intros _. apply (literalAt_rev_app pathSep (c :: d)).
      * cbn [app isEmpty].
        change (c :: d ++ pathSep) with ((c :: d) ++ pathSep).
        rewrite literalAt_rev_app. reflexivity.
Qed.

Lemma find_map_same {A} (f : A -> bool) (g : A -> A) (l : list A) :
  (forall a, f (g a) = f a) ->
  find f (map g l) = option_map g (find f l).
Proof.
  intros H. induction l as [|a l IH]; [reflexivity|].
  simpl. rewrite H. destruct (f a); [reflexivity | exact IH].
Qed.

(** X21: the output file of a target never reaches the server project.
    The executable of the build settings is the executable path of the
    default target, also when that path is empty, and [''] without a
    default target; whatever the output files of the targets are, the
    server project is the same. *)
Theorem output_file_is_never_used :
  forall (pathSep platform documentUri : jsstring) (project : Pbp.PbpProject)
         (v : Pbp.PbpTarget -> Pbp.PbpTargetValue),
    Server.executable
      (Server.buildSettings
         (Server.mapToServerProjectFile pathSep platform documentUri project))
    = match Pbp.selectDefaultTarget project with
      | Some t => Pbp.tvFsPath (Pbp.executable t)
      | None => []
      end
    /\ Server.mapToServerProjectFile pathSep platform documentUri
         (withTargets (map (fun t => withOutputFile (v t) t) (Pbp.targets project))
                      project)
       = Server.mapToServerProjectFile pathSep platform documentUri project.
Proof.
  intros pathSep platform documentUri project v. split.
  - unfold Server.mapToServerProjectFile. cbn [Server.buildSettings Server.executable].
    destruct (Pbp.selectDefaultTarget project); reflexivity.
  - unfold Server.mapToServerProjectFile, Pbp.selectDefaultTarget.
    cbn [withTargets Pbp.targets Pbp.projectName Pbp.projectDir].
    rewrite !find_map_same by reflexivity.
    destruct (find (fun t => Pbp.enabled t && Pbp.isDefault t) (Pbp.targets project));
      [reflexivity|].
    destruct (find (fun t => Pbp.enabled t) (Pbp.targets project)); reflexivity.
Qed.

(** ** The legacy INI format *)

Lemma split_app (a b : jsstring) :
  split (a ++ ch_newline :: b) = split a ++ split b.
Proof.
  induction a as [|c a IH]; [reflexivity|].
  cbn [app split]. rewrite IH.
  destruct (c =? ch_newline)%N; [reflexivity|].
  pose proof (split_not_nil a) as Hne.
  destruct (split a) as [|l ls]; [congruence | reflexivity].
Qed.

Lemma strEq_true (a b : jsstring) : strEq a b = true <-> a = b.
Proof.
  unfold strEq. destruct (list_eq_dec N.eq_dec a b); split; congruence.
Qed.

Lemma header_line (line : jsstring) :
  startsWith (js "[") line = true -> endsWith (js "]") line = true ->
  line = 91%N :: removelast (tl line) ++ [93%N].
Proof.
  destruct line as [|c t]; [discriminate|].
  unfold startsWith, endsWith.
  change (rev (js "]")) with [93%N]. change (js "[") with [91%N].
  intros Hc Hl. cbn [literalAt] in Hc. rewrite andb_true_r in Hc.
  apply N.eqb_eq in Hc. subst c. cbn [tl].
  destruct t as [|x t' _] using rev_ind.
  - vm_compute in Hl. discriminate Hl.
  - rewrite removelast_last.
    change (91%N :: t' ++ [x]) with ((91%N :: t') ++ [x]) in Hl.
    rewrite rev_app_distr in Hl. cbn [rev app literalAt] in Hl.
    rewrite andb_true_r in Hl. apply N.eqb_eq in Hl. subst x. reflexivity.
Qed.

Section IniFacts.

Variable resolveProjectPath : jsstring -> jsstring -> jsstring.
Variable projectDir : jsstring.

Lemma ini_step_no_code (st : Ini.State) (raw : jsstring) :
  isEmpty (trim raw) || startsWithSemicolon (trim raw) = true ->
  Ini.step resolveProjectPath projectDir st raw = st.
Proof. intros H. unfold Ini.step. rewrite H. reflexivity. Qed.

Lemma ini_step_section (st : Ini.State) (raw : jsstring) (sec : jsstring) :
  trim raw <> 91%N :: sec ++ [93%N] ->
  Ini.currentSection st <> sec ->
  Ini.currentSection (Ini.step resolveProjectPath projectDir st raw) <> sec.
Proof.
  intros Hraw Hsec. unfold Ini.step.
  destruct (isEmpty (trim raw) || startsWithSemicolon (trim raw)); [exact Hsec|].
  destruct (startsWith (js "[") (trim raw)) eqn:E1;
    [destruct (endsWith (js "]") (trim raw)) eqn:E2|]; cbn [andb].
  - cbn [Ini.currentSection]. intros E. apply Hraw.
    rewrite (header_line _ E1 E2) at 1. rewrite E. reflexivity.
  - destruct (indexOf 61%N (trim raw)); [|exact Hsec].
    repeat match goal with
           | |- context [if ?b then _ else _] => destruct b
           | |- context [match ?o with Some _ => _ | None => _ end] => destruct o
           end; exact Hsec.
  - destruct (indexOf 61%N (trim raw)); [|exact Hsec].
    repeat match goal with
           | |- context [if ?b then _ else _] => destruct b
           | |- context [match ?o with Some _ => _ | None => _ end] => destruct o
           end; exact Hsec.
Qed.

Lemma ini_step_files (st : Ini.State) (raw : jsstring) :
  Ini.currentSection st <> js "Files" ->
  Ini.files (Ini.step resolveProjectPath projectDir st raw) = Ini.files st.
Proof.
  intros Hsec. unfold Ini.step.
  destruct (isEmpty (trim raw) || startsWithSemicolon (trim raw)); [reflexivity|].
  destruct (startsWith (js "[") (trim raw) && endsWith (js "]") (trim raw));
    [reflexivity|].
  destruct (indexOf 61%N (trim raw)); [|reflexivity].
  set (st1 := if strEq (Ini.currentSection st) (js "Project") then _ else st).
  assert (H1 : Ini.currentSection st1 = Ini.currentSection st
               /\ Ini.files st1 = Ini.files st).
  { unfold st1.
    repeat match goal with
           | |- context [if ?b then _ else _] => destruct b
           end; split; reflexivity. }
  destruct H1 as [Hs Hf].
  destruct (strEq (Ini.currentSection st1) (js "Files")) eqn:E; [|exact Hf].
  apply strEq_true in E. rewrite Hs in E. contradiction.
Qed.

Lemma ini_step_project (st : Ini.State) (raw : jsstring) :
  Ini.currentSection st <> js "Project" ->
  Ini.name (Ini.step resolveProjectPath projectDir st raw) = Ini.name st
  /\ Ini.comment (Ini.step resolveProjectPath projectDir st raw) = Ini.comment st.
Proof.
  intros Hsec. unfold Ini.step.
  destruct (isEmpty (trim raw) || startsWithSemicolon (trim raw));
    [split; reflexivity|].
  destruct (startsWith (js "[") (trim raw) && endsWith (js "]") (trim raw));
    [split; reflexivity|].
  destruct (indexOf 61%N (trim raw)); [|split; reflexivity].
  destruct (strEq (Ini.currentSection st) (js "Project")) eqn:E.
  { apply strEq_true in E. contradiction. }
  repeat match goal with
         | |- context [if ?b then _ else _] => destruct b
         | |- context [match ?o with Some _ => _ | None => _ end] => destruct o
         end; split; reflexivity.
Qed.

Lemma ini_fold_files (lines : list jsstring) :
  Forall (fun line => trim line <> js "[Files]") lines ->
  forall st, Ini.currentSection st <> js "Files" ->
             Ini.files (fold_left (Ini.step resolveProjectPath projectDir) lines st) = Ini.files st.
Proof.
  induction 1 as [|raw rest Hraw _ IH]; intros st Hsec; [reflexivity|].
  cbn [fold_left]. rewrite IH.
  - apply ini_step_files. exact Hsec.
  - apply (ini_step_section st raw (js "Files")); assumption.
Qed.

Lemma ini_fold_project (lines : list jsstring) :
  Forall (fun line => trim line <> js "[Project]") lines ->
  forall st, Ini.currentSection st <> js "Project" ->
             Ini.name (fold_left (Ini.step resolveProjectPath projectDir) lines st) = Ini.name st
             /\ Ini.comment (fold_left (Ini.step resolveProjectPath projectDir) lines st) = Ini.comment st.
Proof.
  induction 1 as [|raw rest Hraw _ IH]; intros st Hsec; [split; reflexivity|].
  cbn [fold_left].
  destruct (IH (Ini.step resolveProjectPath projectDir st raw)) as [H1 H2].
  - apply (ini_step_section st raw (js "Project")); assumption.
  - destruct (ini_step_project st raw Hsec) as [H3 H4].
    split; congruence.
Qed.

End IniFacts.

(** X22: in the legacy format a blank line and a line that starts with
    [;] count for nothing: with such a line put between two parts of the
    text the parsed project is the same. *)
Theorem ini_ignores_comment_lines :
  forall (resolveProjectPath : jsstring -> jsstring -> jsstring)
         (before after line projectFileFsPath projectDir : jsstring),
    noNewline line ->
    isEmpty (trim line) || startsWithSemicolon (trim line) = true ->
    Ini.parseIniProject resolveProjectPath
      (before ++ ch_newline :: line ++ ch_newline :: after)
      projectFileFsPath projectDir
    = Ini.parseIniProject resolveProjectPath
        (before ++ ch_newline :: after) projectFileFsPath projectDir.
Proof.
  intros resolveProjectPath before after line projectFileFsPath projectDir Hnl Hc.
  unfold Ini.parseIniProject.
  rewrite !split_app, (split_single line Hnl).
  rewrite !fold_left_app. cbn [fold_left].
  rewrite (ini_step_no_code resolveProjectPath projectDir _ line Hc).
  reflexivity.
Qed.

Lemma ini_ignores_comment_lines_witness :
  Ini.parseIniProject (fun dir p => dir ++ js "/" ++ p)
    (js "[Project]" ++ ch_newline :: js "; Name=x" ++ ch_newline :: js "Name=y")
    (js "/p/a.pbp") (js "/p")
  = Ini.parseIniProject (fun dir p => dir ++ js "/" ++ p)
      (js "[Project]" ++ ch_newline :: js "Name=y") (js "/p/a.pbp") (js "/p").
Proof.
  apply (ini_ignores_comment_lines (fun dir p => dir ++ js "/" ++ p) (js "[Project]")
           (js "Name=y") (js "; Name=x")).
  - vm_compute. intros H.
    repeat (destruct H as [H|H]; [discriminate H|]). exact H.
  - reflexivity.
Defined.

(** X23: in the legacy format a key counts only under its section
    header.  A text without a [[Files]] line gives no files, and a text
    without a [[Project]] line gives an empty name and an empty comment;
    there are never targets. *)
Theorem ini_keys_need_their_section :
  forall (resolveProjectPath : jsstring -> jsstring -> jsstring)
         (content projectFileFsPath projectDir : jsstring),
    let project :=
      Ini.parseIniProject resolveProjectPath content projectFileFsPath projectDir in
    (Forall (fun line => trim line <> js "[Files]") (split content) ->
     Pbp.files project = [])
    /\ (Forall (fun line => trim line <> js "[Project]") (split content) ->
        Pbp.projectName project = [] /\ Pbp.comment project = [])
    /\ Pbp.targets project = [].
Proof.
  intros resolveProjectPath content projectFileFsPath projectDir project.
  unfold project, Ini.parseIniProject.
  cbn [Pbp.files Pbp.projectName Pbp.comment Pbp.targets].
  split; [|split; [|reflexivity]].
  - intros H.
    apply (ini_fold_files resolveProjectPath projectDir _ H Ini.start).
    discriminate.
  - intros H.
    apply (ini_fold_project resolveProjectPath projectDir _ H Ini.start).
    discriminate.
Qed.

Lemma ini_keys_need_their_section_witness :
  Pbp.files
    (Ini.parseIniProject (fun dir p => dir ++ js "/" ++ p)
       (js "[Project]" ++ ch_newline :: js "Source0=Main.pb")
       (js "/p/a.pbp") (js "/p"))
  = [].
Proof.
  apply (proj1 (ini_keys_need_their_section (fun dir p => dir ++ js "/" ++ p)
                  (js "[Project]" ++ ch_newline :: js "Source0=Main.pb")
                  (js "/p/a.pbp") (js "/p"))).
  vm_compute. repeat constructor; discriminate.
Defined.

Lemma normalizeNewlines_removes_cr_witness :
  normalizeNewlines (js "a") = js "a".
Proof.
  apply (proj1 (proj2 (normalizeNewlines_removes_cr (js "a")))).
  vm_compute. intros [H|H]; [discriminate H | exact H].
Defined.

Lemma selectDefaultTarget_spec_witness :
  Pbp.enabled
    {| Pbp.targetName := js "Default Target"; Pbp.enabled := true;
       Pbp.isDefault := false;
       Pbp.inputFile := {| Pbp.tvRawPath := []; Pbp.tvFsPath := [] |};
       Pbp.outputFile := {| Pbp.tvRawPath := []; Pbp.tvFsPath := [] |};
       Pbp.executable := {| Pbp.tvRawPath := []; Pbp.tvFsPath := [] |};
       Pbp.targetOptions := fun _ => None; Pbp.format := None;
       Pbp.icon := None; Pbp.constants := [] |}
  = true.
Proof.
  exact (proj1 (proj2
    (selectDefaultTarget_spec
       {| Pbp.projectFile := []; Pbp.projectDir := []; Pbp.projectName := [];
          Pbp.comment := []; Pbp.files := [];
          Pbp.targets :=
            [{| Pbp.targetName := js "Default Target"; Pbp.enabled := true;
                Pbp.isDefault := false;
                Pbp.inputFile := {| Pbp.tvRawPath := []; Pbp.tvFsPath := [] |};
                Pbp.outputFile := {| Pbp.tvRawPath := []; Pbp.tvFsPath := [] |};
                Pbp.executable := {| Pbp.tvRawPath := []; Pbp.tvFsPath := [] |};
                Pbp.targetOptions := fun _ => None; Pbp.format := None;
                Pbp.icon := None; Pbp.constants := [] |}] |}))).
Defined.

Lemma ensureTrailingSep_once_witness :
  endsWith (js "/") (Server.ensureTrailingSep (js "/") (js "/home/p")) = true.
Proof.
  apply (proj1 (proj2 (ensureTrailingSep_once (js "/") (js "/home/p")))).
  discriminate.
Defined.
